(** * API documentation assistant: ranking, disambiguation and rendering

    A shallow embedding of [app/parser.py], [app/llm_wrapper.py] and
    [app/resolver.py].  The OpenAPI document is the value [json.load]
    produced: an untyped tree of dicts, lists, strings and numbers.  The
    Python code reads it with [.get], [or], [isinstance] and [.items()], and
    an access to a value of the wrong shape raises; the embedding keeps
    both, with every function returning in an error monad. *)

From Stdlib Require Import ZArith List String Ascii Bool Lia Sorted Permutation.
From Stdlib Require Import DecimalString.
From Stdlib Require OrderedTypeEx.
Import ListNotations.

Set Warnings "-register-all".

Local Open Scope string_scope.
Local Open Scope list_scope.
Local Open Scope Z_scope.

(** ** The fragment of Python the three modules use *)

Module Py.

(** A value loaded from JSON.  Python keeps [int] and [float] apart; a
    float is carried by its [repr] (["0.0"], ["1.5"], ["nan"]), which is
    all the code ever observes of one (its truth value and its printed
    form).  A dict is its item list in insertion order; the keys of a
    loaded dict are pairwise distinct and [lookup] takes the first. *)
Inductive json : Type :=
| JNull
| JBool (b : bool)
| JInt (z : Z)
| JFloat (repr : string)
| JStr (s : string)
| JArr (elems : list json)
| JObj (fields : list (string * json)).

Inductive exn : Type :=
| AttributeError
| TypeError
| ValueError
| RecursionError.

Inductive result (A : Type) : Type :=
| Ok (a : A)
| Raise (e : exn).

Arguments Ok {A} a.
Arguments Raise {A} e.

Definition bind {A B : Type} (m : result A) (k : A -> result B) : result B :=
  match m with
  | Ok a => k a
  | Raise e => Raise e
  end.

Notation "x <- m ;; k" := (bind m (fun x => k))
  (at level 61, m at next level, right associativity).
Notation "' pat <- m ;; k" := (bind m (fun x => match x with pat => k end))
  (at level 61, pat pattern, m at next level, right associativity).

Definition is_ok {A : Type} (m : result A) : bool :=
  match m with
  | Ok _ => true
  | Raise _ => false
  end.

(** A [for] loop whose body may raise, threading the loop's state. *)
Fixpoint foldM {A S : Type} (body : S -> A -> result S) (xs : list A) (s : S)
  : result S :=
  match xs with
  | [] => Ok s
  | x :: xs' => s' <- body s x ;; foldM body xs' s'
  end.

(** *** Strings *)

Definition in_range (lo hi : nat) (c : ascii) : bool :=
  let n := nat_of_ascii c in (Nat.leb lo n && Nat.leb n hi)%bool.

Definition is_upper : ascii -> bool := in_range 65 90.
Definition is_lower : ascii -> bool := in_range 97 122.
Definition is_digit : ascii -> bool := in_range 48 57.

(** The characters [str.split()] and [str.strip()] treat as white space
    (the ASCII ones: tab to carriage return, the four separators, space). *)
Definition is_space (c : ascii) : bool :=
  (in_range 9 13 c || in_range 28 32 c)%bool.

Definition lower_char (c : ascii) : ascii :=
  if is_upper c then ascii_of_nat (nat_of_ascii c + 32) else c.

Definition upper_char (c : ascii) : ascii :=
  if is_lower c then ascii_of_nat (nat_of_ascii c - 32) else c.

Fixpoint map_chars (f : ascii -> ascii) (s : string) : string :=
  match s with
  | EmptyString => EmptyString
  | String c s' => String (f c) (map_chars f s')
  end.

(** [s.lower()] and [s.upper()], on ASCII text. *)
Definition lower : string -> string := map_chars lower_char.
Definition upper : string -> string := map_chars upper_char.

Fixpoint filter_chars (p : ascii -> bool) (s : string) : string :=
  match s with
  | EmptyString => EmptyString
  | String c s' => if p c then String c (filter_chars p s') else filter_chars p s'
  end.

Definition is_empty (s : string) : bool :=
  match s with
  | EmptyString => true
  | String _ _ => false
  end.

(** Cut [s] at every character satisfying [sep]; never the empty list. *)
Fixpoint split_by (sep : ascii -> bool) (s : string) : list string :=
  match s with
  | EmptyString => [EmptyString]
  | String c s' =>
      let r := split_by sep s' in
      if sep c then EmptyString :: r
      else match r with
           | h :: t => String c h :: t
           | [] => [String c EmptyString]
           end
  end.

(** The non-empty pieces: [s.split()] for white space, and
    [[t for t in re.split(r"[^...]+", s) if t]] for a character class. *)
Definition fields (sep : ascii -> bool) (s : string) : list string :=
  filter (fun t => negb (is_empty t)) (split_by sep s).

(** [s.split(ch)[-1]]. *)
Definition last_segment (ch : ascii) (s : string) : string :=
  last (split_by (Ascii.eqb ch) s) EmptyString.

Fixpoint lstrip_by (p : ascii -> bool) (s : string) : string :=
  match s with
  | EmptyString => EmptyString
  | String c s' => if p c then lstrip_by p s' else s
  end.

Fixpoint rstrip_by (p : ascii -> bool) (s : string) : string :=
  match s with
  | EmptyString => EmptyString
  | String c s' =>
      let r := rstrip_by p s' in
      if (p c && is_empty r)%bool then EmptyString else String c r
  end.

(** [s.strip()] and [s.rstrip("/")]. *)
Definition strip (s : string) : string := rstrip_by is_space (lstrip_by is_space s).
Definition rstrip_slash : string -> string := rstrip_by (Ascii.eqb "/"%char).

(** [s.startswith(p)]. *)
Definition startswith (s p : string) : bool := String.prefix p s.

(** [needle in hay] on strings. *)
Fixpoint contains (needle hay : string) : bool :=
  (String.prefix needle hay
   || match hay with
      | EmptyString => false
      | String _ hay' => contains needle hay'
      end)%bool.

Definition mem (x : string) (xs : list string) : bool :=
  existsb (String.eqb x) xs.

(** *** Dynamic values *)

Definition is_nil {A : Type} (l : list A) : bool :=
  match l with
  | [] => true
  | _ :: _ => false
  end.

Definition float_is_zero (repr : string) : bool :=
  (String.eqb repr "0.0" || String.eqb repr "-0.0")%bool.

(** Python's truth value: [not v] is [negb (truthy v)]. *)
Definition truthy (v : json) : bool :=
  match v with
  | JNull => false
  | JBool b => b
  | JInt z => negb (z =? 0)
  | JFloat r => negb (float_is_zero r)
  | JStr s => negb (is_empty s)
  | JArr l => negb (is_nil l)
  | JObj d => negb (is_nil d)
  end.

(** [a or b]. *)
Definition py_or (a b : json) : json := if truthy a then a else b.

Definition is_dict (v : json) : bool :=
  match v with
  | JObj _ => true
  | _ => false
  end.

Fixpoint lookup (d : list (string * json)) (k : string) : option json :=
  match d with
  | [] => None
  | (k', v) :: d' => if String.eqb k' k then Some v else lookup d' k
  end.

(** [v.get(k, dflt)]: only a dict has [.get]. *)
Definition get_or (v : json) (k : string) (dflt : json) : result json :=
  match v with
  | JObj d => Ok (match lookup d k with Some x => x | None => dflt end)
  | _ => Raise AttributeError
  end.

(** [v.get(k)], with [None] for a missing key. *)
Definition get (v : json) (k : string) : result json := get_or v k JNull.

(** [v.items()]. *)
Definition items (v : json) : result (list (string * json)) :=
  match v with
  | JObj d => Ok d
  | _ => Raise AttributeError
  end.

(** [v.keys()]. *)
Definition keys (v : json) : result (list string) :=
  match v with
  | JObj d => Ok (map fst d)
  | _ => Raise AttributeError
  end.

Fixpoint chars (s : string) : list json :=
  match s with
  | EmptyString => []
  | String c s' => JStr (String c EmptyString) :: chars s'
  end.

(** What [for x in v] ranges over: the elements of a list, the keys of a
    dict, the characters of a string; anything else is not iterable. *)
Definition iter (v : json) : result (list json) :=
  match v with
  | JArr l => Ok l
  | JObj d => Ok (map (fun kv => JStr (fst kv)) d)
  | JStr s => Ok (chars s)
  | _ => Raise TypeError
  end.

(** [d[k] = v] on a dict: an existing key keeps its place. *)
Fixpoint dict_set (d : list (string * json)) (k : string) (v : json)
  : list (string * json) :=
  match d with
  | [] => [(k, v)]
  | (k', v') :: d' =>
      if String.eqb k' k then (k, v) :: d' else (k', v') :: dict_set d' k v
  end.

(** Nesting depth, the bound on how deep a recursion over a loaded value
    can go. *)
Fixpoint depth (v : json) : nat :=
  match v with
  | JArr l => S (list_max (map depth l))
  | JObj d => S (list_max (map (fun kv => depth (snd kv)) d))
  | _ => O
  end.

End Py.

Import Py.

(** ** [app/parser.py]: tokenizer, scorer and ranker *)

Module Parser.

Definition is_alnum_lower (c : ascii) : bool := (is_lower c || is_digit c)%bool.

(** [_tokens(text)]: the maximal runs of [a-z0-9] of the lower-cased text.
    [text.lower()] needs a string; a falsy value of any type gives []. *)
Definition _tokens (text : json) : result (list string) :=
  if negb (truthy text) then Ok []
  else match text with
       | JStr s => Ok (fields (fun c => negb (is_alnum_lower c)) (lower s))
       | _ => Raise AttributeError
       end.

Definition schema_prefix : string := "#/components/schemas/".

(** [ref.split("/")[-1]] when [ref] is a string that starts with the
    components prefix. *)
Definition ref_name (ref : json) : option string :=
  match ref with
  | JStr r =>
      if startswith r schema_prefix then Some (last_segment "/"%char r) else None
  | _ => None
  end.

Definition b2z (b : bool) (w : Z) : Z := if b then w else 0.

(** The four additive rules of the scoring loop, for one query token.  The
    scores are Python floats built from 3.0, 2.0 and 1.0 by addition, hence
    integers, exact in a float as long as they stay below 2^53. *)
Definition token_score (path_low : string)
  (op_tokens summary_tokens desc_tokens schema_names : list string)
  (score : Z) (t : string) : Z :=
  let score := score + b2z (contains t path_low) 3 in
  let score := score + b2z (mem t op_tokens || mem t summary_tokens) 2 in
  let score := score + b2z (mem t desc_tokens) 1 in
  let score := score + b2z (mem t schema_names) 1 in
  score.

Definition score_endpoint (query_tokens : list string) (path method : string)
  (info : json) (components_schemas : json) : result Z :=
  let path_low := lower path in
  summary <- get info "summary" ;;
  let summary := py_or (py_or summary (JStr "")) (JStr "") in
  description <- get info "description" ;;
  let description := py_or (py_or description (JStr "")) (JStr "") in
  operationId <- get info "operationId" ;;
  let operationId := py_or (py_or operationId (JStr "")) (JStr "") in
  summary_tokens <- _tokens summary ;;
  desc_tokens <- _tokens description ;;
  op_tokens <- _tokens operationId ;;
  rb <- get_or info "requestBody" (JObj []) ;;
  content <- (if is_dict rb then get_or rb "content" (JObj []) else Ok (JObj [])) ;;
  media <- items content ;;
  schema_names <-
    foldM (fun names (mc : string * json) =>
             let c := snd mc in
             sch <- (if is_dict c then get_or c "schema" (JObj []) else Ok (JObj [])) ;;
             ref <- get sch "$ref" ;;
             Ok (match ref_name ref with
                 | Some n => names ++ [lower n]
                 | None => names
                 end))
          media [] ;;
  parameters <- get_or info "parameters" (JArr []) ;;
  params <- iter (py_or parameters (JArr [])) ;;
  schema_names <-
    foldM (fun names p =>
             psch <- get_or p "schema" (JObj []) ;;
             ref <- get (py_or psch (JObj [])) "$ref" ;;
             Ok (match ref_name ref with
                 | Some n => names ++ [lower n]
                 | None => names
                 end))
          params schema_names ;;
  Ok (fold_left (token_score path_low op_tokens summary_tokens desc_tokens schema_names)
                query_tokens 0).

(** A candidate, the dict [find_candidates] appends.  [summary] and
    [operationId] are whatever the document holds there.  [score] is
    optional because [choose] reads it with [c.get("score", 0.0)] and also
    receives candidate lists from the request body. *)
Record Candidate : Type := mkCandidate {
  route : string;
  method : string;
  summary : json;
  operationId : json;
  schema_refs : list string;
  score : option Z
}.

Definition score_of (c : Candidate) : Z :=
  match score c with
  | Some s => s
  | None => 0
  end.

(** [list(dict.fromkeys(xs))]: duplicates dropped, first occurrences kept. *)
Fixpoint unique (xs : list string) : list string :=
  match xs with
  | [] => []
  | x :: xs' => x :: filter (fun y => negb (String.eqb x y)) (unique xs')
  end.

(** The sort key [(-score, route, method)] and Python's [<] on such
    tuples. *)
Definition key_lt (a b : Candidate) : bool :=
  if - score_of a <? - score_of b then true
  else if - score_of b <? - score_of a then false
  else match String.compare (route a) (route b) with
       | Lt => true
       | Gt => false
       | Eq => String.ltb (method a) (method b)
       end.

(** [list.sort] is stable: an element goes after those already placed
    that are not greater. *)
Fixpoint insert (x : Candidate) (l : list Candidate) : list Candidate :=
  match l with
  | [] => [x]
  | y :: l' => if key_lt x y then x :: l else y :: insert x l'
  end.

Definition sort (l : list Candidate) : list Candidate :=
  fold_left (fun acc x => insert x acc) l [].

(** [xs[:k]]; a negative [k] counts from the end. *)
Definition slice_to {A : Type} (xs : list A) (k : Z) : list A :=
  if 0 <=? k then firstn (Z.to_nat k) xs
  else firstn (Z.to_nat (Z.of_nat (List.length xs) + k)) xs.

(** The body of the inner loop, for one [(method, info)] under [route]. *)
Definition visit_operation (tokens : list string) (components_schemas : json)
  (route : string) (candidates : list Candidate) (mi : string * json)
  : result (list Candidate) :=
  let '(method, info) := mi in
  if negb (is_dict info) then Ok candidates
  else
    score <- score_endpoint tokens route method info components_schemas ;;
    rb <- get_or info "requestBody" (JObj []) ;;
    let rb := py_or rb (JObj []) in
    content <- (if is_dict rb then get_or rb "content" (JObj []) else Ok (JObj [])) ;;
    media <- items content ;;
    schema_refs <-
      foldM (fun refs (mc : string * json) =>
               let c := snd mc in
               if is_dict c then
                 sch <- get_or c "schema" (JObj []) ;;
                 ref <- get (py_or sch (JObj [])) "$ref" ;;
                 Ok (match ref_name ref with
                     | Some n => refs ++ [n]
                     | None => refs
                     end)
               else Ok refs)
            media [] ;;
    parameters <- get_or info "parameters" (JArr []) ;;
    params <- iter (py_or parameters (JArr [])) ;;
    schema_refs <-
      foldM (fun refs p =>
               ps <- get_or p "schema" (JObj []) ;;
               ref <- get (py_or ps (JObj [])) "$ref" ;;
               Ok (match ref_name ref with
                   | Some n => refs ++ [n]
                   | None => refs
                   end))
            params schema_refs ;;
    summary <- get info "summary" ;;
    operationId <- get info "operationId" ;;
    Ok (candidates ++ [mkCandidate route method summary operationId
                                   (unique schema_refs) (Some score)]).

Definition find_candidates (spec : json) (query : string) (top_k : Z)
  : result (list Candidate) :=
  tokens <- _tokens (JStr query) ;;
  paths <- get_or spec "paths" (JObj []) ;;
  let paths := py_or paths (JObj []) in
  components <- get spec "components" ;;
  schemas <- get (py_or components (JObj [])) "schemas" ;;
  let components_schemas := py_or schemas (JObj []) in
  path_items <- items paths ;;
  candidates <-
    foldM (fun candidates (rm : string * json) =>
             let '(route, methods) := rm in
             ops <- items (py_or methods (JObj [])) ;;
             foldM (visit_operation tokens components_schemas route) ops candidates)
          path_items [] ;;
  Ok (slice_to (sort candidates) top_k).

End Parser.

Import Parser.

(** ** [app/llm_wrapper.py]: the disambiguator *)

Module LLM.

(** What [choose] returns: [{"none": True}] or
    [{"route": route, "method": method}]. *)
Inductive Choice : Type :=
| none
| chosen (route method : string).

Definition VALID_METHODS : list string :=
  ["get"; "post"; "put"; "delete"; "patch"; "options"; "head"].

(** [max(candidates, key=lambda c: c.get("score", 0.0))]: the running
    maximum is replaced only by a strictly greater key, so the first
    maximal candidate wins; an empty sequence raises. *)
Fixpoint max_from (best : Candidate) (cs : list Candidate) : Candidate :=
  match cs with
  | [] => best
  | c :: cs' => max_from (if score_of best <? score_of c then c else best) cs'
  end.

Definition py_max (cs : list Candidate) : result Candidate :=
  match cs with
  | [] => Raise ValueError
  | c :: cs' => Ok (max_from c cs')
  end.

(** The body of the [try] block, from the answer [text] that
    [_call_chat(prompt)] returned.  [_call_chat] catches every failure of
    the request itself and returns the empty string for it, so the answer
    is a string in all cases and is taken as an argument here. *)
Definition choose_try (candidates : list Candidate) (text : string)
  : result Choice :=
  if is_empty text then Ok none
  else if startswith (upper text) "NONE" then Ok none
  else
    let parts := fields is_space (strip text) in
    let confirmed :=
      match parts with
      | part0 :: part1 :: _ =>
          let route := strip part0 in
          let raw_method := strip (lower part1) in
          let raw_method :=
            if contains "=" raw_method then last_segment "="%char raw_method
            else raw_method in
          let method := filter_chars is_lower raw_method in
          if mem method VALID_METHODS then
            if existsb (fun c => (String.eqb (Parser.route c) route
                                  && String.eqb (lower (Parser.method c)) method)%bool)
                       candidates
            then Some (chosen route method)
            else None
          else None
      | _ => None
      end in
    match confirmed with
    | Some choice => Ok choice
    | None =>
        best <- py_max candidates ;;
        Ok (chosen (route best) (method best))
    end.

(** The [except Exception] handler. *)
Definition choose_except (candidates : list Candidate) : result Choice :=
  best <- py_max candidates ;;
  if score_of best <=? 0 then Ok none
  else Ok (chosen (route best) (method best)).

Definition choose (question : string) (candidates : list Candidate)
  (text : string) : result Choice :=
  if is_nil candidates then Ok none
  else match choose_try candidates text with
       | Ok choice => Ok choice
       | Raise _ => choose_except candidates
       end.

End LLM.

Import LLM.

(** ** [app/resolver.py]: lookup, sample generator and renderers *)

Module Resolver.

(** The loop over [paths.keys()] of [_find_operation]: the first key equal
    to the route once trailing slashes are stripped replaces the entry. *)
Fixpoint first_equivalent (paths : json) (route : string) (ks : list string)
  (entry : json) : result json :=
  match ks with
  | [] => Ok entry
  | p :: ks' =>
      if String.eqb (rstrip_slash p) (rstrip_slash route) then get paths p
      else first_equivalent paths route ks' entry
  end.

Definition _find_operation (spec : json) (route method : string) : result json :=
  paths <- get_or spec "paths" (JObj []) ;;
  let paths := py_or paths (JObj []) in
  entry <- get paths route ;;
  entry <- (if negb (truthy entry) then
              ks <- keys paths ;;
              first_equivalent paths route ks entry
            else Ok entry) ;;
  if negb (truthy entry) then Ok JNull
  else get entry (lower method).

Definition _resolve_schema_ref (spec : json) (ref : json) : result json :=
  match ref with
  | JStr r =>
      if startswith r "#/components/schemas/" then
        let name := last_segment "/"%char r in
        components <- get spec "components" ;;
        schemas <- get (py_or components (JObj [])) "schemas" ;;
        get (py_or schemas (JObj [])) name
      else Ok JNull
  | _ => Ok JNull
  end.

(** [content.items() if isinstance(content, dict) else []]. *)
Definition items_if_dict (content : json) : list (string * json) :=
  match content with
  | JObj d => d
  | _ => []
  end.

Definition _collect_schema_refs (op : json) : result (list json) :=
  rb <- get op "requestBody" ;;
  content <- get (py_or rb (JObj [])) "content" ;;
  let content := py_or content (JObj []) in
  refs <-
    foldM (fun refs (mc : string * json) =>
             sch <- get (snd mc) "schema" ;;
             r <- get (py_or sch (JObj [])) "$ref" ;;
             Ok (if truthy r then refs ++ [r] else refs))
          (items_if_dict content) [] ;;
  parameters <- get op "parameters" ;;
  params <- iter (py_or parameters (JArr [])) ;;
  foldM (fun refs p =>
           s <- get p "schema" ;;
           r <- get (py_or s (JObj [])) "$ref" ;;
           Ok (if truthy r then refs ++ [r] else refs))
        params refs.

Definition not_found : json := JObj [("error", JStr "operation not found")].

Definition render_summary (spec : json) (route method : string) : result json :=
  op <- _find_operation spec route method ;;
  if negb (truthy op) then Ok not_found
  else
    summary <- get op "summary" ;;
    description <- get op "description" ;;
    operationId <- get op "operationId" ;;
    refs <- _collect_schema_refs op ;;
    Ok (JObj [("route", JStr route);
              ("method", JStr (lower method));
              ("summary", summary);
              ("description", description);
              ("operationId", operationId);
              ("schema_refs", JArr refs)]).

(** [r.split("/")[-1]]. *)
Definition split_last (r : json) : result string :=
  match r with
  | JStr s => Ok (last_segment "/"%char s)
  | _ => Raise AttributeError
  end.

Definition render_schema (spec : json) (route method : string) : result json :=
  op <- _find_operation spec route method ;;
  if negb (truthy op) then Ok not_found
  else
    refs <- _collect_schema_refs op ;;
    schemas <-
      foldM (fun schemas r =>
               sch <- _resolve_schema_ref spec r ;;
               if truthy sch then
                 name <- split_last r ;;
                 Ok (dict_set schemas name sch)
               else Ok schemas)
            refs [] ;;
    Ok (JObj [("schemas", JObj schemas); ("refs", JArr refs)]).

(** [t == "..."] for a value [t] of any type. *)
Definition str_eq (t : json) (s : string) : bool :=
  match t with
  | JStr s' => String.eqb s' s
  | _ => false
  end.

(** [k in d] for a dict [d]. *)
Definition has_key (d : json) (k : string) : bool :=
  match d with
  | JObj fs => existsb (fun kv => String.eqb (fst kv) k) fs
  | _ => false
  end.

(** [sample_from_schema], with the depth of the Python call stack made
    explicit: [fuel] frames are left.  The interpreter's own recursion
    limit is not modelled; [json.load] meets it first on a document
    nested that deep. *)
Fixpoint sample_fuel (fuel : nat) (schema : json) : result json :=
  match fuel with
  | O => Raise RecursionError
  | S fuel' =>
      if negb (is_dict schema) then Ok JNull
      else
        t <- get schema "type" ;;
        if (str_eq t "object" || (negb (truthy t) && has_key schema "properties"))%bool
        then
          props <- get_or schema "properties" (JObj []) ;;
          kvs <- items (py_or props (JObj [])) ;;
          out <-
            foldM (fun out (kv : string * json) =>
                     let '(k, v) := kv in
                     s <- (if is_dict v then sample_fuel fuel' v else Ok JNull) ;;
                     Ok (dict_set out k s))
                  kvs [] ;;
          Ok (JObj out)
        else if str_eq t "array" then
          its <- get_or schema "items" (JObj []) ;;
          s <- sample_fuel fuel' its ;;
          Ok (JArr [s])
        else if str_eq t "string" then
          fmt <- get schema "format" ;;
          if str_eq fmt "date-time" then Ok (JStr "2024-01-01T00:00:00Z")
          else Ok (JStr "string_example")
        else if str_eq t "integer" then Ok (JInt 0)
        else if str_eq t "number" then Ok (JFloat "0.0")
        else if str_eq t "boolean" then Ok (JBool false)
        else Ok JNull
  end.

(** A loaded value of nesting depth [d] never needs more than [d + 1]
    frames (lemma [sample_fuel_enough]). *)
Definition sample_from_schema (schema : json) : result json :=
  sample_fuel (S (depth schema)) schema.

Definition no_body : json := JObj [("error", JStr "no requestBody schema found")].

(** The loop of [render_sample] over the media types; [None] when it runs
    to its end without returning. *)
Fixpoint first_sample (spec : json) (media : list (string * json))
  : result (option json) :=
  match media with
  | [] => Ok None
  | (mime, c) :: media' =>
      sch <- get c "schema" ;;
      let sch := py_or sch (JObj []) in
      ref <- get sch "$ref" ;;
      if truthy ref then
        schema_obj <- _resolve_schema_ref spec ref ;;
        if truthy schema_obj then
          sample <- sample_from_schema schema_obj ;;
          Ok (Some (JObj [("content_type", JStr mime);
                          ("sample", sample);
                          ("schema_ref", ref)]))
        else first_sample spec media'
      else
        sample <- sample_from_schema sch ;;
        Ok (Some (JObj [("content_type", JStr mime);
                        ("sample", sample);
                        ("schema_ref", JNull)]))
  end.

Definition render_sample (spec : json) (route method : string) : result json :=
  op <- _find_operation spec route method ;;
  if negb (truthy op) then Ok not_found
  else
    rb <- get op "requestBody" ;;
    content <- get (py_or rb (JObj [])) "content" ;;
    let content := py_or content (JObj []) in
    found <- first_sample spec (items_if_dict content) ;;
    match found with
    | Some r => Ok r
    | None => Ok no_body
    end.

Definition dquote : string := String (ascii_of_nat 34) EmptyString.

(** [sample is not None]. *)
Definition is_none (v : json) : bool :=
  match v with
  | JNull => true
  | _ => false
  end.

Section Curl.

(** [json.dumps], the standard library's encoder. *)
Variable json_dumps : json -> string.

(** What the loop of [render_curl] appends for one media type and its
    sample. *)
Definition body_args (mime : string) (sample : json) : string :=
  (" -H " ++ dquote ++ "Content-Type: " ++ mime ++ dquote
   ++ " -d '" ++ json_dumps sample ++ "'")%string.

(** The sample [render_curl] computes for one media type. *)
Definition media_sample (spec : json) (c : json) : result json :=
  sch <- get c "schema" ;;
  let sch := py_or sch (JObj []) in
  ref <- get sch "$ref" ;;
  if truthy ref then
    schema_obj <- _resolve_schema_ref spec ref ;;
    if truthy schema_obj then sample_from_schema schema_obj else Ok JNull
  else sample_from_schema sch.

(** The loop of [render_curl] over the media types, with its [break]. *)
Fixpoint add_body (spec : json) (media : list (string * json)) (curl : string)
  : result string :=
  match media with
  | [] => Ok curl
  | (mime, c) :: media' =>
      sample <- media_sample spec c ;;
      if negb (is_none sample) then Ok (curl ++ body_args mime sample)%string
      else add_body spec media' curl
  end.

Definition auth_args : string :=
  (" -H " ++ dquote ++ "Authorization: Bearer <TOKEN>" ++ dquote)%string.

Definition render_curl (spec : json) (route method : string) : result json :=
  op <- _find_operation spec route method ;;
  if negb (truthy op) then Ok not_found
  else
    let path_template := route in
    let curl := ("curl -X " ++ upper method ++ " " ++ dquote
                 ++ "http://<HOST>" ++ path_template ++ dquote)%string in
    rb <- get op "requestBody" ;;
    content <- get (py_or rb (JObj [])) "content" ;;
    let content := py_or content (JObj []) in
    curl <- add_body spec (items_if_dict content) curl ;;
    op_sec <- get op "security" ;;
    sec <- (if truthy op_sec then Ok op_sec
            else spec_sec <- get spec "security" ;; Ok (py_or spec_sec (JArr []))) ;;
    let curl := if truthy sec then (curl ++ auth_args)%string else curl in
    Ok (JObj [("curl", JStr curl)]).

End Curl.

End Resolver.

Import Resolver.

(** ** Documents the code accepts

    The shapes the accesses above rely on, as decidable predicates on the
    loaded document.  A field is absent or of the type OpenAPI gives it.
    The ranker skips a value under a path that is not a dict; the
    renderers call [.get] on whatever the lookup returns and sample the
    schemas they reach, so for them ([strict]) every value under a path is
    an operation and every reachable schema is one the sample generator
    returns on. *)

Module Shape.

Definition opt (d : list (string * json)) (k : string) (p : json -> bool) : bool :=
  match lookup d k with
  | None => true
  | Some v => p v
  end.

Definition is_str (v : json) : bool :=
  match v with
  | JStr _ => true
  | _ => false
  end.

Definition samplable (v : json) : bool := is_ok (sample_from_schema v).

Definition dict_of (p : list (string * json) -> bool) (v : json) : bool :=
  match v with
  | JObj d => p d
  | _ => false
  end.

Definition list_of (p : json -> bool) (v : json) : bool :=
  match v with
  | JArr l => forallb p l
  | _ => false
  end.

Definition values (p : json -> bool) (d : list (string * json)) : bool :=
  forallb (fun kv => p (snd kv)) d.

Section Strictness.

Variable strict : bool.

Definition wf_schema (s : json) : bool :=
  (is_dict s && (negb strict || samplable s))%bool.

Definition wf_media : json -> bool :=
  dict_of (fun c => opt c "schema" wf_schema).

Definition wf_parameter : json -> bool :=
  dict_of (fun p => opt p "schema" is_dict).

Definition wf_request_body : json -> bool :=
  dict_of (fun rb => opt rb "content" (dict_of (values wf_media))).

Definition wf_operation : json -> bool :=
  dict_of (fun op =>
             opt op "summary" is_str
             && opt op "description" is_str
             && opt op "operationId" is_str
             && opt op "requestBody" wf_request_body
             && opt op "parameters" (list_of wf_parameter))%bool.

Definition wf_entry (info : json) : bool :=
  (wf_operation info || (negb strict && negb (is_dict info)))%bool.

Definition wf_path_item : json -> bool := dict_of (values wf_entry).

Definition wf_component (s : json) : bool :=
  (negb strict || negb (truthy s) || samplable s)%bool.

Definition wf_components : json -> bool :=
  dict_of (fun c => opt c "schemas" (dict_of (values wf_component))).

Definition wf_spec : json -> bool :=
  dict_of (fun top =>
             opt top "paths" (dict_of (values wf_path_item))
             && opt top "components" wf_components)%bool.

End Strictness.

(** Well-formed input of the ranker, and of the renderers. *)
Definition well_formed_spec : json -> bool := wf_spec false.
Definition resolvable_spec : json -> bool := wf_spec true.

(** The operations of a document: every [(route, method, info)] with a
    dict-shaped [info], in iteration order. *)
Definition operations (spec : json) : list (string * string * json) :=
  match spec with
  | JObj top =>
      match lookup top "paths" with
      | Some (JObj path_items) =>
          flat_map (fun rm : string * json =>
                      map (fun mi : string * json => (fst rm, fst mi, snd mi))
                          (filter (fun mi => is_dict (snd mi))
                                  (items_if_dict (snd rm))))
                   path_items
      | _ => []
      end
  | _ => []
  end.

(** The paths mapping of a document. *)
Definition paths_of (spec : json) : list (string * json) :=
  match spec with
  | JObj top =>
      match lookup top "paths" with
      | Some (JObj path_items) => path_items
      | _ => []
      end
  | _ => []
  end.

End Shape.

Import Shape.

(** ** A JSON encoder for the examples

    [json.dumps] with its defaults ([ensure_ascii], separators [", "] and
    [": "]) on ASCII text.  The theorems on [render_curl] hold for any
    encoder; the examples run with this one. *)

Module Encoder.

Definition hex_digit (n : nat) : ascii :=
  nth n (list_ascii_of_string "0123456789abcdef") "0"%char.

Definition escape_char (c : ascii) : string :=
  let n := nat_of_ascii c in
  if Nat.eqb n 34 then String "\"%char dquote
  else if Nat.eqb n 92 then "\\"
  else if Nat.eqb n 8 then "\b"
  else if Nat.eqb n 9 then "\t"
  else if Nat.eqb n 10 then "\n"
  else if Nat.eqb n 12 then "\f"
  else if Nat.eqb n 13 then "\r"
  else if in_range 32 126 c then String c EmptyString
  else String "\"%char
         (String "u"%char
            (String "0"%char
               (String "0"%char
                  (String (hex_digit (Nat.div n 16))
                     (String (hex_digit (Nat.modulo n 16)) EmptyString))))).

Fixpoint escape (s : string) : string :=
  match s with
  | EmptyString => EmptyString
  | String c s' => (escape_char c ++ escape s')%string
  end.

Definition quoted (s : string) : string := (dquote ++ escape s ++ dquote)%string.

Definition float_text (repr : string) : string :=
  if String.eqb repr "nan" then "NaN"
  else if String.eqb repr "inf" then "Infinity"
  else if String.eqb repr "-inf" then "-Infinity"
  else repr.

Fixpoint dumps (v : json) : string :=
  match v with
  | JNull => "null"
  | JBool true => "true"
  | JBool false => "false"
  | JInt z => DecimalString.NilZero.string_of_int (Z.to_int z)
  | JFloat r => float_text r
  | JStr s => quoted s
  | JArr l => ("[" ++ String.concat ", " (map dumps l) ++ "]")%string
  | JObj d =>
      ("{" ++ String.concat ", "
                (map (fun kv => (quoted (fst kv) ++ ": " ++ dumps (snd kv))%string) d)
           ++ "}")%string
  end.

End Encoder.

(** ** What the ranker computes, read off a well-formed document

    The tokens of a text field, the schema names an operation refers to,
    the points of one query token and the candidate of one operation, as
    plain functions of the document.  The theorems on [score_endpoint] and
    [find_candidates] compare the loops of [app/parser.py] with these. *)

Module Ranking.

Definition tokens_of (s : string) : list string :=
  fields (fun c => negb (is_alnum_lower c)) (lower s).

Definition field (info : json) (k : string) : json :=
  match info with
  | JObj d => match lookup d k with Some v => v | None => JNull end
  | _ => JNull
  end.

Definition field_tokens (info : json) (k : string) : list string :=
  match field info k with
  | JStr s => tokens_of s
  | _ => []
  end.

(** The name in the [$ref] of the schema of a media type or parameter. *)
Definition schema_ref_of (x : json) : option string :=
  match field x "schema" with
  | JObj sd => ref_name (field (JObj sd) "$ref")
  | _ => None
  end.

Definition media_of (info : json) : list (string * json) :=
  items_if_dict (field (field info "requestBody") "content").

Definition params_of (info : json) : list json :=
  match field info "parameters" with
  | JArr ps => ps
  | _ => []
  end.

Definition olist {A : Type} (o : option A) : list A :=
  match o with
  | Some a => [a]
  | None => []
  end.

(** Request body first, then parameters, in document order. *)
Definition referenced_names (info : json) : list string :=
  flat_map (fun x => olist (schema_ref_of x)) (map snd (media_of info) ++ params_of info).

Definition zsum (l : list Z) : Z := fold_right Z.add 0 l.

Definition token_points (path : string) (info : json) (t : string) : Z :=
  b2z (contains t (lower path)) 3
  + b2z (mem t (field_tokens info "operationId") || mem t (field_tokens info "summary")) 2
  + b2z (mem t (field_tokens info "description")) 1
  + b2z (mem t (map lower (referenced_names info))) 1.

Definition candidate_for (tokens : list string) (op : string * string * json)
  : Candidate :=
  let '(route, method, info) := op in
  mkCandidate route method (field info "summary") (field info "operationId")
              (unique (referenced_names info))
              (Some (zsum (map (token_points route info) tokens))).

(** What one [(method, info)] under a route adds to the candidates. *)
Definition candidates_of_entry (tokens : list string) (route : string)
  (mi : string * json) : list Candidate :=
  if is_dict (snd mi) then [candidate_for tokens (route, fst mi, snd mi)] else [].

Definition str_lt (a b : string) : Prop := String.compare a b = Lt.

(** The order of the ranking: higher score first, then route, then
    method, both ascending. *)
Definition ranked_before (a b : Candidate) : Prop :=
  score_of a > score_of b
  \/ (score_of a = score_of b
      /\ (str_lt (route a) (route b)
          \/ (route a = route b
              /\ (str_lt (method a) (method b) \/ method a = method b)))).

(** The command line before any body, and whether a security
    requirement is declared on the operation or on the document. *)
Definition curl_base (method route : string) : string :=
  ("curl -X " ++ upper method ++ " " ++ dquote ++ "http://<HOST>" ++ route ++ dquote)%string.

Definition security_declared (spec op : json) : bool :=
  (truthy (field op "security") || truthy (field spec "security"))%bool.

Definition curl_auth (spec op : json) : string :=
  if security_declared spec op then auth_args else EmptyString.

End Ranking.

Import Ranking.

(** ** Documents and candidates of the examples *)

Module Examples.

(** One operation, [GET /health]. *)
Definition health_spec : json :=
  JObj [("paths",
         JObj [("/health",
                JObj [("get", JObj [("summary", JStr "Health check")])])])].

Definition health_candidate (s : Z) : Candidate :=
  mkCandidate "/health" "get" (JStr "Health check") JNull [] (Some s).

(** An operation whose summary and operationId share the token
    [health]. *)
Definition status_info : json :=
  JObj [("summary", JStr "Health"); ("operationId", JStr "health")].

(** An object schema whose [properties] is a list. *)
Definition list_properties_schema : json :=
  JObj [("type", JStr "object"); ("properties", JArr [JInt 1])].

(** [POST /notes] declares two media types; the first has no schema. *)
Definition notes_operation : json :=
  JObj [("requestBody",
         JObj [("content",
                JObj [("text/plain", JObj []);
                      ("application/json",
                       JObj [("schema", JObj [("type", JStr "string")])])])])].

Definition notes_spec : json :=
  JObj [("paths", JObj [("/notes", JObj [("post", notes_operation)])])].

(** [POST /orders/] takes an [Order], a component of the document. *)
Definition order_schema : json :=
  JObj [("type", JStr "object");
        ("properties", JObj [("item", JObj [("type", JStr "string")]);
                             ("quantity", JObj [("type", JStr "integer")])])].

Definition orders_spec : json :=
  JObj [("paths",
         JObj [("/orders/",
                JObj [("post",
                       JObj [("operationId", JStr "createOrder");
                             ("requestBody",
                              JObj [("content",
                                     JObj [("application/json",
                                            JObj [("schema",
                                                   JObj [("$ref",
                                                          JStr "#/components/schemas/Order")])])])])])])]);
        ("components", JObj [("schemas", JObj [("Order", order_schema)])])].

Definition order_sample : json :=
  JObj [("item", JStr "string_example"); ("quantity", JInt 0)].

(** Five operations under three paths, out of ranking order in the
    document; three of them tie on the query "list orders". *)
Definition shop_spec : json :=
  JObj [("paths",
         JObj [("/orders/{id}",
                JObj [("get", JObj [("summary", JStr "Get order")]);
                      ("delete", JObj [("summary", JStr "Delete order")])]);
               ("/health",
                JObj [("get", JObj [("summary", JStr "Health check")])]);
               ("/orders",
                JObj [("post", JObj [("summary", JStr "Create order")]);
                      ("get", JObj [("summary", JStr "List orders")])])])].

Definition shop_candidate (route method summary : string) (s : Z) : Candidate :=
  mkCandidate route method (JStr summary) JNull [] (Some s).

(** The ranking of [shop_spec] for "list orders", best first. *)
Definition shop_ranking : list Candidate :=
  [shop_candidate "/orders" "get" "List orders" 7;
   shop_candidate "/orders" "post" "Create order" 3;
   shop_candidate "/orders/{id}" "delete" "Delete order" 3;
   shop_candidate "/orders/{id}" "get" "Get order" 3;
   shop_candidate "/health" "get" "Health check" 0].



(** Arrays of arrays of arrays; the innermost has no [items]. *)
Definition nested_arrays : json :=
  JObj [("type", JStr "array");
        ("items", JObj [("type", JStr "array");
                        ("items", JObj [("type", JStr "array")])])].

(** An operation that refers to [Order] twice and to [Customer] once. *)
Definition ref_to (name : string) : json :=
  JObj [("schema", JObj [("$ref", JStr ("#/components/schemas/" ++ name))])].

Definition order_operation : json :=
  JObj [("operationId", JStr "createOrder");
        ("requestBody", JObj [("content", JObj [("application/json", ref_to "Order")])]);
        ("parameters",
         JArr [ref_to "Customer";
               ref_to "Order";
               JObj [("schema", JObj [("type", JStr "string")])]])].

End Examples.

Import Examples.

(** ** [app/main.py]: the index built at import and the two endpoints *)

Module Main.

(** [v.values()]. *)
Definition values_of (v : json) : result (list json) :=
  match v with
  | JObj d => Ok (map snd d)
  | _ => Raise AttributeError
  end.

(** [if "$ref" in schema: refs.append(schema["$ref"])].  On a dict [in]
    tests the keys; on a list it tests the elements and on a string the
    substrings, and the subscript by a string then raises; nothing else
    supports [in]. *)
Definition append_ref (refs : list json) (schema : json) : result (list json) :=
  match schema with
  | JObj d => Ok (match lookup d "$ref" with
                  | Some r => refs ++ [r]
                  | None => refs
                  end)
  | JArr l => if existsb (fun x => str_eq x "$ref") l then Raise TypeError else Ok refs
  | JStr s => if contains "$ref" s then Raise TypeError else Ok refs
  | _ => Raise TypeError
  end.

(** The loop over [content.values()], which [extract_schema_refs] runs
    for the request body and for every response. *)
Definition media_refs (content : json) (refs : list json) : result (list json) :=
  medias <- values_of content ;;
  foldM (fun refs media =>
           schema <- get_or media "schema" (JObj []) ;;
           append_ref refs schema)
        medias refs.

Definition extract_schema_refs (operation : json) : result (list json) :=
  request_body <- get_or operation "requestBody" (JObj []) ;;
  content <- get_or request_body "content" (JObj []) ;;
  refs <- media_refs content [] ;;
  responses <- get_or operation "responses" (JObj []) ;;
  resps <- values_of responses ;;
  foldM (fun refs resp =>
           content <- get_or resp "content" (JObj []) ;;
           media_refs content refs)
        resps refs.

(** [spec_index], a dict keyed by [(path, method.lower())]. *)
Definition index : Type := list ((string * string) * json).

Definition key_eqb (a b : string * string) : bool :=
  (String.eqb (fst a) (fst b) && String.eqb (snd a) (snd b))%bool.

Fixpoint index_get (idx : index) (k : string * string) : option json :=
  match idx with
  | [] => None
  | (k', v) :: idx' => if key_eqb k' k then Some v else index_get idx' k
  end.

Fixpoint index_set (idx : index) (k : string * string) (v : json) : index :=
  match idx with
  | [] => [(k, v)]
  | (k', v') :: idx' =>
      if key_eqb k' k then (k, v) :: idx' else (k', v') :: index_set idx' k v
  end.

(** The dict stored for one operation. *)
Definition index_entry (data : json) : result json :=
  summary <- get data "summary" ;;
  operationId <- get data "operationId" ;;
  refs <- extract_schema_refs data ;;
  Ok (JObj [("summary", summary);
            ("operationId", operationId);
            ("schema_refs", JArr refs)]).

(** The two loops that fill [spec_index]. *)
Definition build_index (spec : json) : result index :=
  paths <- get_or spec "paths" (JObj []) ;;
  path_items <- items paths ;;
  foldM (fun idx (pm : string * json) =>
           let '(path, methods) := pm in
           ops <- items methods ;;
           foldM (fun idx (md : string * json) =>
                    let '(method, data) := md in
                    entry <- index_entry data ;;
                    Ok (index_set idx (path, lower method) entry))
                 ops idx)
        path_items [].

(** How importing the module ends, given the document [load_openapi]
    returned: [print(spec["paths"].keys())] comes before the loops. *)
Inductive startup : Type :=
| Started (spec_index : index)
| KeyError (key : string)
| Failed (e : exn).

Definition import_main (spec : json) : startup :=
  match spec with
  | JObj top =>
      match lookup top "paths" with
      | None => KeyError "paths"
      | Some paths =>
          match keys paths with
          | Raise e => Failed e
          | Ok _ =>
              match build_index spec with
              | Ok spec_index => Started spec_index
              | Raise e => Failed e
              end
          end
      end
  | _ => Failed TypeError
  end.

(** What a handler returns, and how a request ends. *)
Inductive response : Type :=
| CandidateList (candidates : list Candidate)
| Body (body : json).

Inductive outcome : Type :=
| Returned (r : response)
| HTTPException (status_code : Z) (detail : string)
| Uncaught (e : exn).

(** [POST /candidates]; the return value is [{"candidates": cands}]. *)
Definition candidates_endpoint (spec : json) (q : string) (top_k : Z) : outcome :=
  if is_empty q then HTTPException 400 "Missing question"
  else match find_candidates spec q top_k with
       | Ok cands => Returned (CandidateList cands)
       | Raise e => Uncaught e
       end.

Definition no_match : json := JObj [("error", JStr "No matching endpoint found")].

(** [POST /choose].  The candidates of the request, when it has any, are
    candidate dicts as [find_candidates] builds them; [text] is the
    model's answer, as in [choose]. *)
Definition choose_endpoint (spec : json) (spec_index : index) (q : string)
  (candidates : option (list Candidate)) (text : string) : outcome :=
  if is_empty q then HTTPException 400 "Missing question"
  else
    let chosen_from (candidates : list Candidate) : outcome :=
      match choose q candidates text with
      | Raise e => Uncaught e
      | Ok none => Returned (Body no_match)
      | Ok (chosen route method) =>
          let method := lower method in
          match index_get spec_index (route, method) with
          | Some endpoint =>
              if negb (truthy endpoint) then
                Returned (Body (JObj [("error", JStr "Chosen endpoint not found in spec");
                                      ("route", JStr route);
                                      ("method", JStr method)]))
              else
                match (summary <- get endpoint "summary" ;;
                       operationId <- get endpoint "operationId" ;;
                       refs <- get_or endpoint "schema_refs" (JArr []) ;;
                       Ok (JObj [("route", JStr route);
                                 ("method", JStr method);
                                 ("summary", summary);
                                 ("operationId", operationId);
                                 ("schema_refs", refs)])) with
                | Ok body => Returned (Body body)
                | Raise e => Uncaught e
                end
          | None =>
              Returned (Body (JObj [("error", JStr "Chosen endpoint not found in spec");
                                    ("route", JStr route);
                                    ("method", JStr method)]))
          end
      end in
    match candidates with
    | Some (c :: cs) => chosen_from (c :: cs)
    | _ =>
        match find_candidates spec q 10 with
        | Ok candidates => chosen_from candidates
        | Raise e => Uncaught e
        end
    end.

(** Documents the import accepts: [paths] is present, every value under
    a path is an operation, and request body and responses have the
    shape [extract_schema_refs] walks through. *)
Definition wf_indexed_content : json -> bool :=
  dict_of (values (dict_of (fun media => opt media "schema" is_dict))).

Definition wf_indexed_operation : json -> bool :=
  dict_of (fun op =>
             opt op "requestBody" (dict_of (fun rb => opt rb "content" wf_indexed_content))
             && opt op "responses"
                    (dict_of (values (dict_of (fun resp =>
                                                 opt resp "content" wf_indexed_content)))))%bool.

Definition indexable_spec (spec : json) : bool :=
  match spec with
  | JObj top =>
      match lookup top "paths" with
      | Some (JObj path_items) =>
          values (dict_of (values wf_indexed_operation)) path_items
      | _ => false
      end
  | _ => false
  end.

End Main.

Import Main.

(** ** Vocabulary of the further properties *)

Module Views.

Fixpoint all_chars (p : ascii -> bool) (s : string) : bool :=
  match s with
  | EmptyString => true
  | String c s' => (p c && all_chars p s')%bool
  end.


(** The [(route, method)] pair a candidate or an operation stands for. *)
Definition candidate_key (c : Candidate) : string * string := (route c, method c).

Definition operation_key (op : string * string * json) : string * string :=
  (fst (fst op), snd (fst op)).

(** The [$ref] of the schema of a media type or parameter, as written. *)
Definition raw_ref (x : json) : json :=
  match field x "schema" with
  | JObj sd => field (JObj sd) "$ref"
  | _ => JNull
  end.

(** An index holds an entry of the built shape under a key. *)
Definition stored (idx : index) (k : string * string) : Prop :=
  exists summary operationId refs,
    index_get idx k = Some (JObj [("summary", summary);
                                  ("operationId", operationId);
                                  ("schema_refs", JArr refs)]).

(** The index [app/main.py] builds for [orders_spec]. *)
Definition orders_index : index :=
  [(("/orders/", "post"),
    JObj [("summary", JNull);
          ("operationId", JStr "createOrder");
          ("schema_refs", JArr [JStr "#/components/schemas/Order"])])].

(** The characters on which the string functions of the embedding are
    those of Python: the ASCII ones. *)
Definition is_ascii (c : ascii) : bool := Nat.ltb (nat_of_ascii c) 128.

End Views.

Import Views.

(** * Properties *)

(** ** The disambiguator *)

Section Chooser.

Lemma max_from_In (cs : list Candidate) :
  forall best, In (max_from best cs) (best :: cs).
Proof.
  induction cs as [|c cs IH]; intros best; simpl.
  - now left.
  - destruct (IH (if score_of best <? score_of c then c else best)) as [H|H].
    + destruct (score_of best <? score_of c); rewrite <- H; auto.
    + auto.
Qed.

Lemma py_max_In (cs : list Candidate) (best : Candidate) :
  py_max cs = Ok best -> In best cs.
Proof.
  destruct cs as [|c cs]; simpl; [discriminate|].
  intros [= <-]. apply max_from_In.
Qed.

Lemma py_max_nonempty (cs : list Candidate) :
  is_nil cs = false -> exists best, py_max cs = Ok best.
Proof.
  destruct cs as [|c cs]; [discriminate|]. intros _. simpl. eauto.
Qed.

(** [max] keeps the first of the maximal candidates: nothing scores
    higher, and nothing before it scores as high. *)
Lemma max_from_first (cs : list Candidate) :
  forall best,
    exists before after,
      best :: cs = before ++ max_from best cs :: after
      /\ (forall c, In c before -> score_of c < score_of (max_from best cs))
      /\ (forall c, In c after -> score_of c <= score_of (max_from best cs)).
Proof.
  induction cs as [|c cs IH]; intros best; simpl.
  - exists [], []. repeat split; simpl; intros; tauto.
  - destruct (Z.ltb_spec (score_of best) (score_of c)) as [Hlt|Hge].
    + destruct (IH c) as (before & after & Heq & Hb & Ha).
      exists (best :: before), after. split; [|split]; auto.
      * simpl. now rewrite Heq at 1.
      * intros x [<-|Hx]; auto.
        destruct before as [|y before].
        -- injection Heq as Hm _. rewrite <- Hm. lia.
        -- injection Heq as Hy _. specialize (Hb y (or_introl eq_refl)).
           rewrite <- Hy in Hb. lia.
    + destruct (IH best) as (before & after & Heq & Hb & Ha).
      destruct before as [|y before].
      * injection Heq as Hm Hcs. exists [], (c :: after).
        split; [|split].
        -- simpl. rewrite <- Hm. do 2 f_equal. exact Hcs.
        -- simpl. tauto.
        -- intros x [<-|Hx]; [rewrite <- Hm; lia|]. auto.
      * injection Heq as Hy Hcs. exists (best :: c :: before), after.
        assert (Hbest : score_of best < score_of (max_from best cs))
          by (apply Hb; left; congruence).
        split; [|split]; auto.
        -- simpl. do 2 f_equal. exact Hcs.
        -- intros x [<-|[<-|Hx]]; auto; [lia|]. apply Hb. now right.
Qed.

Lemma valid_method_lower (m : string) :
  mem m VALID_METHODS = true -> lower m = m.
Proof.
  unfold mem, VALID_METHODS. simpl. intros H.
  repeat (apply orb_true_iff in H; destruct H as [H|H];
          [apply String.eqb_eq in H; subst m; reflexivity|]).
  discriminate.
Qed.

(** With typed candidates nothing in the [try] block raises, so the
    handler never runs. *)
Lemma choose_try_returns (cs : list Candidate) (text : string) :
  is_nil cs = false -> exists choice, choose_try cs text = Ok choice.
Proof.
  intros Hne. unfold choose_try.
  destruct (is_empty text); [eauto|].
  destruct (startswith (upper text) "NONE"); [eauto|].
  destruct (py_max_nonempty cs Hne) as [best Hbest]. rewrite Hbest. simpl.
  match goal with |- context [match ?c with Some _ => _ | None => _ end] =>
    destruct c end; eauto.
Qed.

Lemma choose_is_try (q : string) (cs : list Candidate) (text : string) :
  is_nil cs = false -> choose q cs text = choose_try cs text.
Proof.
  intros Hne. unfold choose. rewrite Hne.
  destruct (choose_try_returns cs text Hne) as [ch ->]. reflexivity.
Qed.

Lemma choose_try_in_candidates (cs : list Candidate) (text r m : string) :
  choose_try cs text = Ok (chosen r m) ->
  exists c, In c cs /\ route c = r /\ lower (method c) = lower m.
Proof.
  unfold choose_try.
  destruct (is_empty text); [discriminate|].
  destruct (startswith (upper text) "NONE"); [discriminate|].
  match goal with |- context [match ?c with Some _ => _ | None => _ end] =>
    destruct c as [ch|] eqn:Hconf end.
  - intros [= ->].
    destruct (fields is_space (strip text)) as [|p0 [|p1 rest]]; try discriminate.
    destruct (mem _ VALID_METHODS) eqn:Hvalid; [|discriminate].
    match type of Hconf with (if existsb ?f cs then _ else _) = _ =>
      destruct (existsb f cs) eqn:Hex; [|discriminate] end.
    injection Hconf as <- <-.
    apply existsb_exists in Hex. destruct Hex as (c & Hin & Hc).
    apply andb_true_iff in Hc. destruct Hc as [Hr Hm].
    apply String.eqb_eq in Hr, Hm.
    exists c. repeat split; auto.
    rewrite Hm. symmetry. now apply valid_method_lower.
  - destruct (py_max cs) as [best|e] eqn:Hbest; simpl; [|discriminate].
    intros [= <- <-]. exists best. repeat split; auto.
    now apply py_max_In.
Qed.

End Chooser.

(** C1. [choose] returns on every question, candidate list and model
    answer, and a choice other than "none" names a candidate of the input
    list: same route, same method up to case. *)
Theorem choose_never_invents (question : string) (candidates : list Candidate)
  (text : string) :
  exists choice,
    choose question candidates text = Ok choice
    /\ forall r m, choice = chosen r m ->
         exists c, In c candidates /\ route c = r /\ lower (method c) = lower m.
Proof.
  destruct (is_nil candidates) eqn:Hne.
  - exists none. unfold choose. rewrite Hne. split; [reflexivity|discriminate].
  - destruct (choose_try_returns candidates text Hne) as [ch Hch].
    exists ch. rewrite choose_is_try by assumption. split; [assumption|].
    intros r m ->. now apply choose_try_in_candidates with (text := text).
Qed.

(** C2, as stated, fails: on an empty answer the top candidate scores 5
    and [choose] still returns "none". *)
Lemma choose_empty_answer_counterexample :
  let candidates := [health_candidate 5] in
  py_max candidates = Ok (health_candidate 5)
  /\ 0 < score_of (health_candidate 5)
  /\ choose "is the system healthy" candidates "" = Ok none
  /\ choose "is the system healthy" candidates "" <> Ok (chosen "/health" "get").
Proof.
  repeat split; try reflexivity. discriminate.
Qed.

(** C2, amended. When the backend call yields the empty answer, [choose]
    returns "none" for every question and candidate list, whatever the
    scores. *)
Theorem choose_empty_answer_none (question : string) (candidates : list Candidate) :
  choose question candidates "" = Ok none.
Proof.
  unfold choose. destruct (is_nil candidates); reflexivity.
Qed.

(** C3. An answer that does not parse reaches the fallback of the [try]
    block, which returns the top candidate without looking at its score:
    here the score is 0 and the result is not "none". *)
Theorem choose_fallback_skips_score_check :
  py_max [health_candidate 0] = Ok (health_candidate 0)
  /\ score_of (health_candidate 0) <= 0
  /\ choose "what is the weather" [health_candidate 0] "unsure"
     = Ok (chosen "/health" "get")
  /\ choose_except [health_candidate 0] = Ok none.
Proof.
  repeat split; reflexivity || (intros H; discriminate H).
Qed.

(** ** The scorer and the ranker *)

Section Ranker.

Lemma foldM_collect {A B : Type} (body : list B -> A -> result (list B))
  (g : A -> list B) (l : list A) :
  (forall x, In x l -> forall acc, body acc x = Ok (acc ++ g x)) ->
  forall acc, foldM body l acc = Ok (acc ++ flat_map g l).
Proof.
  induction l as [|x l IH]; intros Hbody acc; simpl.
  - now rewrite app_nil_r.
  - rewrite Hbody by now left. simpl.
    rewrite IH by (intros; apply Hbody; now right).
    now rewrite app_assoc.
Qed.

Lemma fold_token_score (path_low : string) (ops sums descs names : list string)
  (points : string -> Z) (tokens : list string) :
  (forall t acc, token_score path_low ops sums descs names acc t = acc + points t) ->
  forall acc,
    fold_left (token_score path_low ops sums descs names) tokens acc
    = acc + zsum (map points tokens).
Proof.
  intros Hstep. induction tokens as [|t tokens IH]; intros acc; simpl.
  - lia.
  - rewrite IH, Hstep. lia.
Qed.

Lemma opt_cases (d : list (string * json)) (k : string) (p : json -> bool) :
  opt d k p = true ->
  lookup d k = None \/ exists v, lookup d k = Some v /\ p v = true.
Proof.
  unfold opt. destruct (lookup d k) as [v|]; eauto.
Qed.

Lemma tokens_of_text_field (d : list (string * json)) (k : string) :
  opt d k is_str = true ->
  _tokens (py_or (py_or (match lookup d k with Some v => v | None => JNull end)
                        (JStr "")) (JStr ""))
  = Ok (field_tokens (JObj d) k).
Proof.
  intros H. unfold field_tokens, field.
  destruct (opt_cases _ _ _ H) as [->|(v & -> & Hv)]; [reflexivity|].
  destruct v; try discriminate. destruct s; reflexivity.
Qed.

Lemma wf_schema_dict (strict : bool) (v : json) :
  wf_schema strict v = true -> exists sd, v = JObj sd.
Proof.
  unfold wf_schema. destruct v; try discriminate. eauto.
Qed.

Lemma is_dict_inv (v : json) : is_dict v = true -> exists d, v = JObj d.
Proof.
  destruct v; try discriminate. eauto.
Qed.

Lemma py_or_empty_dict_ref (sd : list (string * json)) :
  get (py_or (JObj sd) (JObj [])) "$ref" = Ok (field (JObj sd) "$ref").
Proof.
  destruct sd; reflexivity.
Qed.

(** The two loops of [score_endpoint] that gather schema names, one step
    each. *)
Lemma score_media_step (strict : bool) (names : list string) (mc : string * json) :
  wf_media strict (snd mc) = true ->
  (let c := snd mc in
   sch <- (if is_dict c then get_or c "schema" (JObj []) else Ok (JObj [])) ;;
   ref <- get sch "$ref" ;;
   Ok (match ref_name ref with
       | Some n => names ++ [lower n]
       | None => names
       end))
  = Ok (names ++ map lower (olist (schema_ref_of (snd mc)))).
Proof.
  destruct mc as [mime c]. simpl. destruct c; try discriminate. simpl.
  intros H. unfold schema_ref_of, field.
  destruct (opt_cases _ _ _ H) as [->|(v & -> & Hv)]; simpl.
  - now rewrite app_nil_r.
  - destruct (wf_schema_dict _ _ Hv) as [sd ->]. simpl.
    destruct (ref_name _); simpl; [reflexivity|now rewrite app_nil_r].
Qed.

Lemma score_param_step (names : list string) (p : json) :
  wf_parameter p = true ->
  (psch <- get_or p "schema" (JObj []) ;;
   ref <- get (py_or psch (JObj [])) "$ref" ;;
   Ok (match ref_name ref with
       | Some n => names ++ [lower n]
       | None => names
       end))
  = Ok (names ++ map lower (olist (schema_ref_of p))).
Proof.
  destruct p; try discriminate. simpl.
  intros H. unfold schema_ref_of, field.
  destruct (opt_cases _ _ _ H) as [->|(v & -> & Hv)]; simpl.
  - now rewrite app_nil_r.
  - destruct (is_dict_inv _ Hv) as [sd ->].
    rewrite py_or_empty_dict_ref. simpl.
    destruct (ref_name _); simpl; [reflexivity|now rewrite app_nil_r].
Qed.

(** The same two loops in [find_candidates], which keep the names as
    written. *)
Lemma rank_media_step (strict : bool) (refs : list string) (mc : string * json) :
  wf_media strict (snd mc) = true ->
  (let c := snd mc in
   if is_dict c then
     sch <- get_or c "schema" (JObj []) ;;
     ref <- get (py_or sch (JObj [])) "$ref" ;;
     Ok (match ref_name ref with
         | Some n => refs ++ [n]
         | None => refs
         end)
   else Ok refs)
  = Ok (refs ++ olist (schema_ref_of (snd mc))).
Proof.
  destruct mc as [mime c]. simpl. destruct c; try discriminate. simpl.
  intros H. unfold schema_ref_of, field.
  destruct (opt_cases _ _ _ H) as [->|(v & -> & Hv)]; simpl.
  - now rewrite app_nil_r.
  - destruct (wf_schema_dict _ _ Hv) as [sd ->].
    rewrite py_or_empty_dict_ref. simpl.
    destruct (ref_name _); simpl; [reflexivity|now rewrite app_nil_r].
Qed.

Lemma rank_param_step (refs : list string) (p : json) :
  wf_parameter p = true ->
  (ps <- get_or p "schema" (JObj []) ;;
   ref <- get (py_or ps (JObj [])) "$ref" ;;
   Ok (match ref_name ref with
       | Some n => refs ++ [n]
       | None => refs
       end))
  = Ok (refs ++ olist (schema_ref_of p)).
Proof.
  destruct p; try discriminate. simpl.
  intros H. unfold schema_ref_of, field.
  destruct (opt_cases _ _ _ H) as [->|(v & -> & Hv)]; simpl.
  - now rewrite app_nil_r.
  - destruct (is_dict_inv _ Hv) as [sd ->].
    rewrite py_or_empty_dict_ref. simpl.
    destruct (ref_name _); simpl; [reflexivity|now rewrite app_nil_r].
Qed.

(** The media types of a well-formed operation, as both functions reach
    them. *)
Lemma media_of_operation (strict : bool) (d : list (string * json)) :
  opt d "requestBody" (wf_request_body strict) = true ->
  let rb := match lookup d "requestBody" with Some x => x | None => JObj [] end in
  (if is_dict rb then get_or rb "content" (JObj []) else Ok (JObj []))
  = Ok (JObj (media_of (JObj d)))
  /\ (if is_dict (py_or rb (JObj []))
      then get_or (py_or rb (JObj [])) "content" (JObj [])
      else Ok (JObj []))
     = Ok (JObj (media_of (JObj d)))
  /\ Forall (fun mc => wf_media strict (snd mc) = true) (media_of (JObj d)).
Proof.
  intros H. unfold media_of, field. simpl.
  destruct (opt_cases _ _ _ H) as [->|(rb & -> & Hrb)]; simpl; [auto|].
  destruct rb as [| | | | | |rbd]; try discriminate. simpl in Hrb.
  assert (Hpy : py_or (JObj rbd) (JObj []) = JObj rbd \/ rbd = []).
  { destruct rbd; [now right|now left]. }
  destruct (opt_cases _ _ _ Hrb) as [Hc|(content & Hc & Hcontent)].
  - destruct Hpy as [->| ->]; simpl; rewrite ?Hc; simpl; auto.
  - destruct content as [| | | | | |ms]; try discriminate. simpl in Hcontent.
    destruct Hpy as [->| ->]; simpl; rewrite ?Hc; simpl.
    + repeat split; auto. unfold values in Hcontent.
      now apply Forall_forall, forallb_forall.
    + discriminate Hc.
Qed.

Lemma params_of_operation (d : list (string * json)) :
  opt d "parameters" (list_of wf_parameter) = true ->
  (parameters <- get_or (JObj d) "parameters" (JArr []) ;;
   iter (py_or parameters (JArr []))) = Ok (params_of (JObj d))
  /\ Forall (fun p => wf_parameter p = true) (params_of (JObj d)).
Proof.
  intros H. unfold params_of, field. simpl.
  destruct (opt_cases _ _ _ H) as [->|(ps & -> & Hps)]; simpl; [auto|].
  destruct ps as [| | | | |l|]; try discriminate. simpl in Hps.
  split; [destruct l; reflexivity|].
  now apply Forall_forall, forallb_forall.
Qed.

Lemma wf_operation_inv (strict : bool) (info : json) :
  wf_operation strict info = true ->
  exists d, info = JObj d
    /\ opt d "summary" is_str = true
    /\ opt d "description" is_str = true
    /\ opt d "operationId" is_str = true
    /\ opt d "requestBody" (wf_request_body strict) = true
    /\ opt d "parameters" (list_of wf_parameter) = true.
Proof.
  destruct info as [| | | | | |d]; try discriminate. simpl. intros H.
  repeat (apply andb_true_iff in H; destruct H as [H ?]).
  exists d. auto 10.
Qed.

Lemma map_lower_flat_map {A : Type} (f : A -> list string) (l : list A) :
  flat_map (fun x => map lower (f x)) l = map lower (flat_map f l).
Proof.
  induction l as [|x l IH]; simpl; [reflexivity|].
  now rewrite map_app, IH.
Qed.

(** On a well-formed operation the scorer returns, and its score is the
    sum over the query tokens of the points of each. *)
Lemma score_endpoint_points (strict : bool) (tokens : list string)
  (path method : string) (info components_schemas : json) :
  wf_operation strict info = true ->
  score_endpoint tokens path method info components_schemas
  = Ok (zsum (map (token_points path info) tokens)).
Proof.
  intros Hwf.
  destruct (wf_operation_inv _ _ Hwf) as (d & -> & Hs & Hd & Ho & Hrb & Hps).
  destruct (media_of_operation _ _ Hrb) as (Hmedia & _ & Hwm).
  destruct (params_of_operation _ Hps) as (Hparams & Hwp).
  unfold score_endpoint, get. cbn [get_or bind].
  rewrite !tokens_of_text_field by assumption. cbn [bind].
  change (get_or (JObj d) "requestBody" (JObj []))
    with (Ok (match lookup d "requestBody" with Some x => x | None => JObj [] end)).
  cbn [bind].
  cbv zeta in Hmedia. rewrite Hmedia. cbn [bind items].
  rewrite (foldM_collect _ (fun mc => map lower (olist (schema_ref_of (snd mc))))).
  2:{ intros mc Hin acc. rewrite Forall_forall in Hwm.
      apply (score_media_step strict). now apply Hwm. }
  cbn [bind app].
  change (get_or (JObj d) "parameters" (JArr []))
    with (Ok (match lookup d "parameters" with Some x => x | None => JArr [] end)).
  cbn [bind].
  cbn [get_or bind] in Hparams. rewrite Hparams. cbn [bind].
  rewrite (foldM_collect _ (fun p => map lower (olist (schema_ref_of p)))).
  2:{ intros p Hin acc. rewrite Forall_forall in Hwp.
      apply score_param_step. now apply Hwp. }
  cbn [bind]. f_equal.
  rewrite (fold_token_score _ _ _ _ _ (token_points path (JObj d))); [lia|].
  intros t acc. unfold token_score, token_points, referenced_names.
  rewrite flat_map_app, map_app, <- !map_lower_flat_map.
  rewrite (flat_map_concat_map _ (map snd _)), map_map, <- flat_map_concat_map.
  lia.
Qed.

Lemma visit_operation_appends (strict : bool) (tokens : list string)
  (components_schemas : json) (route : string) (candidates : list Candidate)
  (mi : string * json) :
  wf_entry strict (snd mi) = true ->
  visit_operation tokens components_schemas route candidates mi
  = Ok (candidates ++ candidates_of_entry tokens route mi).
Proof.
  destruct mi as [method info]. unfold wf_entry, candidates_of_entry. simpl.
  intros H. apply orb_true_iff in H. destruct H as [Hwf|Hskip].
  2:{ apply andb_true_iff in Hskip. destruct Hskip as [_ Hnd].
      destruct (is_dict info); [discriminate|]. simpl. now rewrite app_nil_r. }
  rewrite (score_endpoint_points strict) by assumption.
  destruct (wf_operation_inv _ _ Hwf) as (d & -> & Hs & Hd & Ho & Hrb & Hps).
  destruct (media_of_operation _ _ Hrb) as (_ & Hmedia & Hwm).
  destruct (params_of_operation _ Hps) as (Hparams & Hwp).
  cbn [is_dict negb bind].
  change (get_or (JObj d) "requestBody" (JObj []))
    with (Ok (match lookup d "requestBody" with Some x => x | None => JObj [] end)).
  cbn [bind]. cbv zeta in Hmedia. rewrite Hmedia. cbn [bind items].
  rewrite (foldM_collect _ (fun mc => olist (schema_ref_of (snd mc)))).
  2:{ intros mc Hin acc. rewrite Forall_forall in Hwm.
      apply (rank_media_step strict). now apply Hwm. }
  cbn [bind app].
  change (get_or (JObj d) "parameters" (JArr []))
    with (Ok (match lookup d "parameters" with Some x => x | None => JArr [] end)).
  cbn [bind]. cbn [get_or bind] in Hparams. rewrite Hparams. cbn [bind].
  rewrite (foldM_collect _ (fun p => olist (schema_ref_of p))).
  2:{ intros p Hin acc. rewrite Forall_forall in Hwp.
      apply rank_param_step. now apply Hwp. }
  unfold get. cbn [get_or bind]. do 3 f_equal.
  unfold candidate_for, field, referenced_names. do 2 f_equal.
  rewrite flat_map_app.
  now rewrite (flat_map_concat_map _ (map snd _)), map_map, <- flat_map_concat_map.
Qed.

Lemma tokens_of_query (query : string) : _tokens (JStr query) = Ok (tokens_of query).
Proof.
  destruct query; reflexivity.
Qed.

Lemma map_flat_map {A B C : Type} (f : B -> C) (g : A -> list B) (l : list A) :
  map f (flat_map g l) = flat_map (fun x => map f (g x)) l.
Proof.
  induction l as [|x l IH]; simpl; [reflexivity|].
  now rewrite map_app, IH.
Qed.

Lemma candidates_of_entries (tokens : list string) (route : string)
  (ops : list (string * json)) :
  flat_map (candidates_of_entry tokens route) ops
  = map (candidate_for tokens)
        (map (fun mi : string * json => (route, fst mi, snd mi))
             (filter (fun mi => is_dict (snd mi)) ops)).
Proof.
  induction ops as [|mi ops IH]; simpl; [reflexivity|].
  unfold candidates_of_entry at 1.
  destruct (is_dict (snd mi)); simpl; now rewrite IH.
Qed.

Lemma wf_spec_inv (strict : bool) (spec : json) :
  wf_spec strict spec = true ->
  exists top, spec = JObj top
    /\ opt top "paths" (dict_of (values (wf_path_item strict))) = true
    /\ opt top "components" (wf_components strict) = true.
Proof.
  destruct spec as [| | | | | |top]; try discriminate. simpl. intros H.
  apply andb_true_iff in H. destruct H. eauto.
Qed.

(** The paths mapping as every function of the code obtains it:
    [spec.get("paths", {}) or {}]. *)
Lemma paths_of_spec (top : list (string * json)) (p : list (string * json) -> bool) :
  opt top "paths" (dict_of p) = true ->
  py_or (match lookup top "paths" with Some x => x | None => JObj [] end) (JObj [])
  = JObj (paths_of (JObj top))
  /\ (paths_of (JObj top) = [] \/ p (paths_of (JObj top)) = true).
Proof.
  intros H. unfold paths_of.
  destruct (opt_cases _ _ _ H) as [->|(v & -> & Hv)]; [auto|].
  destruct v as [| | | | | |pis]; try discriminate.
  destruct pis; auto.
Qed.

(** [((spec.get("components") or {}).get("schemas") or {})] evaluates. *)
Lemma components_schemas_ok (strict : bool) (top : list (string * json)) :
  opt top "components" (wf_components strict) = true ->
  exists schemas,
    get (py_or (match lookup top "components" with Some x => x | None => JNull end)
               (JObj [])) "schemas" = Ok schemas.
Proof.
  intros H.
  destruct (opt_cases _ _ _ H) as [->|(v & -> & Hv)]; [simpl; eauto|].
  destruct v as [| | | | | |cd]; try discriminate.
  destruct cd; simpl; eauto.
Qed.

(** On a well-formed document the ranker returns: the candidates of the
    operations in document order, sorted, cut at [top_k]. *)
Lemma find_candidates_ranking (strict : bool) (spec : json) (query : string)
  (top_k : Z) :
  wf_spec strict spec = true ->
  find_candidates spec query top_k
  = Ok (slice_to (sort (map (candidate_for (tokens_of query)) (operations spec)))
                 top_k).
Proof.
  intros Hwf. destruct (wf_spec_inv _ _ Hwf) as (top & -> & Hpaths & Hcomp).
  destruct (paths_of_spec _ _ Hpaths) as [Hpy Hitems].
  destruct (components_schemas_ok _ _ Hcomp) as [schemas Hschemas].
  unfold find_candidates. rewrite tokens_of_query.
  unfold get at 1. cbn [get_or bind]. rewrite Hpy, Hschemas. cbn [bind items].
  rewrite (foldM_collect _
             (fun rm => flat_map (candidates_of_entry (tokens_of query) (fst rm))
                                 (items_if_dict (snd rm)))).
  - cbn [bind app]. do 2 f_equal.
    unfold operations, paths_of.
    destruct (lookup top "paths") as [[| | | | | |pis]|]; try reflexivity.
    rewrite map_flat_map. f_equal. clear.
    induction pis as [|rm pis IH]; simpl; [reflexivity|].
    now rewrite candidates_of_entries, IH.
  - intros [route methods] Hin acc.
    destruct Hitems as [Hnil|Hvalues]; [rewrite Hnil in Hin; contradiction|].
    unfold values in Hvalues. rewrite forallb_forall in Hvalues.
    specialize (Hvalues _ Hin). simpl in Hvalues.
    destruct methods as [| | | | | |ops]; try discriminate. simpl in Hvalues.
    assert (Hops : items (py_or (JObj ops) (JObj [])) = Ok ops)
      by (destruct ops; reflexivity).
    rewrite Hops. cbn [bind fst snd items_if_dict].
    apply foldM_collect. intros mi Hmi acc'.
    apply (visit_operation_appends strict).
    unfold values in Hvalues. rewrite forallb_forall in Hvalues. now apply Hvalues.
Qed.

(** *** The order of the sort key *)

Lemma str_lt_trans (a b c : string) : str_lt a b -> str_lt b c -> str_lt a c.
Proof.
  unfold str_lt. intros Hab Hbc.
  apply OrderedTypeEx.String_as_OT.cmp_lt in Hab, Hbc.
  apply OrderedTypeEx.String_as_OT.cmp_lt.
  eapply OrderedTypeEx.String_as_OT.lt_trans; eassumption.
Qed.

Lemma str_compare_cases (a b : string) :
  (String.compare a b = Lt /\ str_lt a b)
  \/ (String.compare a b = Eq /\ a = b)
  \/ (String.compare a b = Gt /\ str_lt b a).
Proof.
  destruct (String.compare a b) eqn:H.
  - right; left. split; [reflexivity|]. now apply String.compare_eq_iff.
  - left. auto.
  - right; right. split; [reflexivity|]. unfold str_lt.
    rewrite String.compare_antisym, H. reflexivity.
Qed.

Lemma str_lt_irrefl (a : string) : ~ str_lt a a.
Proof.
  unfold str_lt. intros H.
  assert (Heq : String.compare a a = Eq)
    by now apply OrderedTypeEx.String_as_OT.cmp_eq.
  congruence.
Qed.

Lemma key_lt_ranked (a b : Candidate) : key_lt a b = true -> ranked_before a b.
Proof.
  unfold key_lt, ranked_before, String.ltb.
  destruct (Z.ltb_spec (- score_of a) (- score_of b)); [intros _; left; lia|].
  destruct (Z.ltb_spec (- score_of b) (- score_of a)); [discriminate|].
  destruct (str_compare_cases (route a) (route b)) as [[-> H1]|[[-> H1]|[-> H1]]];
    try discriminate.
  - intros _. right. split; [lia|]. now left.
  - destruct (str_compare_cases (method a) (method b)) as [[-> H2]|[[-> H2]|[-> H2]]];
      try discriminate.
    intros _. right. split; [lia|]. right. split; [assumption|]. now left.
Qed.

Lemma key_nlt_ranked (a b : Candidate) : key_lt b a = false -> ranked_before a b.
Proof.
  unfold key_lt, ranked_before, String.ltb.
  destruct (Z.ltb_spec (- score_of b) (- score_of a)); [discriminate|].
  destruct (Z.ltb_spec (- score_of a) (- score_of b)); [intros _; left; lia|].
  destruct (str_compare_cases (route b) (route a)) as [[-> H1]|[[-> H1]|[-> H1]]];
    try discriminate.
  - destruct (str_compare_cases (method b) (method a)) as [[-> H2]|[[-> H2]|[-> H2]]];
      try discriminate; intros _; right; (split; [lia|]); right; split; auto.
  - intros _. right. split; [lia|]. now left.
Qed.

Lemma ranked_before_trans (a b c : Candidate) :
  ranked_before a b -> ranked_before b c -> ranked_before a c.
Proof.
  unfold ranked_before.
  intros [Hab|[Eab Hab]] [Hbc|[Ebc Hbc]]; try (left; lia).
  right. split; [lia|].
  destruct Hab as [Hab|[Rab Hab]], Hbc as [Hbc|[Rbc Hbc]].
  - left. eapply str_lt_trans; eassumption.
  - left. now rewrite <- Rbc.
  - left. now rewrite Rab.
  - right. split; [congruence|].
    destruct Hab as [Hab| ->], Hbc as [Hbc|Hbc]; auto.
    + left. eapply str_lt_trans; eassumption.
    + left. now rewrite <- Hbc.
Qed.

(** *** [list.sort] and the slice *)

Lemma insert_perm (x : Candidate) (l : list Candidate) :
  Permutation (insert x l) (x :: l).
Proof.
  induction l as [|y l IH]; simpl; [reflexivity|].
  destruct (key_lt x y); [reflexivity|].
  rewrite IH. apply perm_swap.
Qed.

Lemma sort_from_perm (l acc : list Candidate) :
  Permutation (fold_left (fun acc x => insert x acc) l acc) (acc ++ l).
Proof.
  revert acc. induction l as [|x l IH]; intros acc; simpl.
  - now rewrite app_nil_r.
  - rewrite IH, insert_perm. apply Permutation_middle.
Qed.

Lemma sort_perm (l : list Candidate) : Permutation (sort l) l.
Proof.
  apply (sort_from_perm l []).
Qed.

Lemma insert_sorted (x : Candidate) (l : list Candidate) :
  StronglySorted ranked_before l -> StronglySorted ranked_before (insert x l).
Proof.
  induction 1 as [|y l Hsorted IH Hall]; simpl.
  - repeat constructor.
  - destruct (key_lt x y) eqn:Hlt.
    + constructor; [now constructor|].
      apply key_lt_ranked in Hlt. constructor; [assumption|].
      eapply Forall_impl; [|exact Hall].
      intros z Hz. eapply ranked_before_trans; eassumption.
    + constructor; [assumption|].
      apply key_nlt_ranked in Hlt.
      eapply Permutation_Forall; [symmetry; apply insert_perm|].
      now constructor.
Qed.

Lemma sort_sorted (l : list Candidate) : StronglySorted ranked_before (sort l).
Proof.
  unfold sort.
  assert (H : forall acc, StronglySorted ranked_before acc ->
              StronglySorted ranked_before (fold_left (fun acc x => insert x acc) l acc)).
  { induction l as [|x l IH]; intros acc Hacc; simpl; [assumption|].
    apply IH. now apply insert_sorted. }
  apply H. constructor.
Qed.

Lemma firstn_incl {A : Type} (n : nat) (l : list A) (x : A) :
  In x (firstn n l) -> In x l.
Proof.
  intros H. rewrite <- (firstn_skipn n l). apply in_or_app. now left.
Qed.

Lemma firstn_sorted {A : Type} (R : A -> A -> Prop) (n : nat) (l : list A) :
  StronglySorted R l -> StronglySorted R (firstn n l).
Proof.
  intros H. revert n. induction H as [|x l Hsorted IH Hall]; intros n.
  - rewrite firstn_nil. constructor.
  - destruct n; simpl; constructor; [apply IH|].
    apply Forall_forall. intros y Hy. rewrite Forall_forall in Hall.
    apply Hall. eapply firstn_incl; eassumption.
Qed.

Lemma slice_to_incl {A : Type} (l : list A) (k : Z) (x : A) :
  In x (slice_to l k) -> In x l.
Proof.
  unfold slice_to. destruct (0 <=? k); apply firstn_incl.
Qed.

Lemma slice_to_sorted {A : Type} (R : A -> A -> Prop) (l : list A) (k : Z) :
  StronglySorted R l -> StronglySorted R (slice_to l k).
Proof.
  unfold slice_to. destruct (0 <=? k); apply firstn_sorted.
Qed.

Lemma slice_to_length {A : Type} (l : list A) (k : Z) :
  0 <= k -> List.length (slice_to l k) = Nat.min (Z.to_nat k) (List.length l).
Proof.
  intros Hk. unfold slice_to.
  destruct (Z.leb_spec 0 k); [|lia]. apply length_firstn.
Qed.

Lemma operations_route (spec : json) (r m : string) (info : json) :
  In (r, m, info) (operations spec) -> In r (map fst (paths_of spec)).
Proof.
  unfold operations, paths_of.
  destruct spec as [| | | | | |top]; try contradiction.
  destruct (lookup top "paths") as [[| | | | | |pis]|]; try contradiction.
  intros H. apply in_flat_map in H. destruct H as (rm & Hrm & H).
  apply in_map_iff in H. destruct H as (mi & [= <- _ _] & _).
  now apply in_map.
Qed.

End Ranker.

(** C4. On a well-formed document and a non-negative [top_k],
    [find_candidates] returns at most [top_k] candidates, ordered by
    score descending, then route ascending, then method ascending, and
    every route returned is a key of the document's paths. *)
Theorem find_candidates_top_k_sorted (spec : json) (query : string) (top_k : Z) :
  well_formed_spec spec = true ->
  0 <= top_k ->
  exists candidates,
    find_candidates spec query top_k = Ok candidates
    /\ Z.of_nat (List.length candidates) <= top_k
    /\ StronglySorted ranked_before candidates
    /\ forall c, In c candidates -> In (route c) (map fst (paths_of spec)).
Proof.
  intros Hwf Hk. eexists. split; [now apply (find_candidates_ranking false)|].
  split; [|split].
  - rewrite slice_to_length by assumption. lia.
  - apply slice_to_sorted, sort_sorted.
  - intros c Hc. apply slice_to_incl in Hc.
    apply (Permutation_in _ (sort_perm _)) in Hc.
    apply in_map_iff in Hc. destruct Hc as ([[r m] info] & <- & Hop).
    simpl. eapply operations_route; eassumption.
Qed.

Lemma find_candidates_top_k_sorted_witness :
  well_formed_spec shop_spec = true
  /\ 0 <= 3
  /\ find_candidates shop_spec "list orders" 3
     = Ok [shop_candidate "/orders" "get" "List orders" 7;
           shop_candidate "/orders" "post" "Create order" 3;
           shop_candidate "/orders/{id}" "delete" "Delete order" 3]
  /\ List.length (operations shop_spec) = 5%nat
  /\ exists candidates,
       find_candidates shop_spec "list orders" 3 = Ok candidates
       /\ Z.of_nat (List.length candidates) <= 3
       /\ StronglySorted ranked_before candidates
       /\ forall c, In c candidates -> In (route c) (map fst (paths_of shop_spec)).
Proof.
  split; [reflexivity|]. split; [lia|].
  split; [reflexivity|]. split; [reflexivity|].
  apply (find_candidates_top_k_sorted shop_spec "list orders" 3); [reflexivity|lia].
Defined.

(** C5, as stated, fails: the token [health] is in the tokenized
    operationId and in the tokenized summary, and the score is 2, not 4. *)
Lemma score_endpoint_both_fields_counterexample :
  mem "health" (field_tokens status_info "operationId") = true
  /\ mem "health" (field_tokens status_info "summary") = true
  /\ score_endpoint ["health"] "/status" "get" status_info (JObj []) = Ok 2
  /\ score_endpoint ["health"] "/status" "get" status_info (JObj []) <> Ok 4.
Proof.
  repeat split; reflexivity || (intros H; discriminate H).
Qed.

(** C5, amended. On a well-formed operation the score is the sum of the
    points of the query tokens, and a token earns the 2 points of the
    second rule once when it is in the tokenized operationId or in the
    tokenized summary, also when it is in both. *)
Theorem score_endpoint_two_points_once (tokens : list string)
  (path method : string) (info components_schemas : json) :
  wf_operation false info = true ->
  score_endpoint tokens path method info components_schemas
  = Ok (zsum (map (fun t =>
                     b2z (contains t (lower path)) 3
                     + b2z (mem t (field_tokens info "operationId")
                            || mem t (field_tokens info "summary")) 2
                     + b2z (mem t (field_tokens info "description")) 1
                     + b2z (mem t (map lower (referenced_names info))) 1)
                  tokens)).
Proof.
  intros Hwf. now apply (score_endpoint_points false).
Qed.

Lemma score_endpoint_two_points_once_witness :
  wf_operation false status_info = true
  /\ score_endpoint ["health"; "status"] "/status" "get" status_info (JObj [])
     = Ok (zsum [0 + 2 + 0 + 0; 3 + 0 + 0 + 0]).
Proof.
  split; [reflexivity|].
  apply (score_endpoint_two_points_once ["health"; "status"] "/status" "get"
           status_info (JObj [])).
  reflexivity.
Defined.

(** C6, as stated, fails: with [top_k = 0] the list is empty although the
    document has an operation. *)
Lemma find_candidates_empty_counterexample :
  well_formed_spec health_spec = true
  /\ operations health_spec <> []
  /\ find_candidates health_spec "health" 0 = Ok [].
Proof.
  repeat split; reflexivity || (intros H; discriminate H).
Qed.

(** C6, amended. [find_candidates] returns on every well-formed document,
    and with [top_k >= 1] its list is empty only when the document has no
    operation. *)
Theorem find_candidates_total_nonempty (spec : json) (query : string) (top_k : Z) :
  well_formed_spec spec = true ->
  exists candidates,
    find_candidates spec query top_k = Ok candidates
    /\ (1 <= top_k -> candidates = [] -> operations spec = []).
Proof.
  intros Hwf. eexists. split; [now apply (find_candidates_ranking false)|].
  intros Hk Hnil. apply (f_equal (@List.length _)) in Hnil.
  rewrite slice_to_length in Hnil by lia.
  rewrite (Permutation_length (sort_perm _)), length_map in Hnil. simpl in Hnil.
  destruct (operations spec); [reflexivity|]. simpl in Hnil. lia.
Qed.

Lemma find_candidates_total_nonempty_witness :
  well_formed_spec health_spec = true
  /\ exists candidates,
       find_candidates health_spec "xyz" 1 = Ok candidates
       /\ (1 <= 1 -> candidates = [] -> operations health_spec = []).
Proof.
  split; [reflexivity|].
  apply (find_candidates_total_nonempty health_spec "xyz" 1). reflexivity.
Defined.

(** ** The sample generator *)

Section Sampler.

Lemma foldM_ext {A S : Type} (f g : S -> A -> result S) (l : list A) :
  (forall x, In x l -> forall s, f s x = g s x) ->
  forall s, foldM f l s = foldM g l s.
Proof.
  induction l as [|x l IH]; intros H s; simpl; [reflexivity|].
  rewrite H by now left. destruct (g s x); simpl; [|reflexivity].
  apply IH. intros; apply H; now right.
Qed.

Lemma depth_field (d : list (string * json)) (k : string) (v : json) :
  In (k, v) d -> (depth v < depth (JObj d))%nat.
Proof.
  intros H. simpl. apply Nat.lt_succ_r.
  assert (Hall := list_max_le (map (fun kv => depth (snd kv)) d)
                              (list_max (map (fun kv => depth (snd kv)) d))).
  destruct Hall as [Hall _]. specialize (Hall (Nat.le_refl _)).
  rewrite Forall_forall in Hall. apply Hall.
  apply in_map_iff. exists (k, v). auto.
Qed.

Lemma lookup_In (d : list (string * json)) (k : string) (v : json) :
  lookup d k = Some v -> In (k, v) d.
Proof.
  induction d as [|[k' v'] d IH]; simpl; [discriminate|].
  destruct (String.eqb_spec k' k) as [->|_].
  - intros [= ->]. now left.
  - intros H. right. auto.
Qed.

Lemma sample_fuel_empty_dict (n : nat) : sample_fuel (S n) (JObj []) = Ok JNull.
Proof.
  reflexivity.
Qed.

(** Once the frames exceed the nesting depth of the value, more of them
    change nothing. *)
Lemma sample_fuel_stable (n : nat) :
  forall m v, (depth v < n)%nat -> (depth v < m)%nat ->
              sample_fuel n v = sample_fuel m v.
Proof.
  induction n as [|n IH]; intros m v Hn Hm; [lia|].
  destruct m as [|m]; [lia|].
  destruct v as [| | | | | |d]; try reflexivity.
  cbn [sample_fuel is_dict negb]. unfold get. cbn [get_or bind].
  match goal with |- (if ?c then _ else _) = _ => destruct c end.
  - destruct (lookup d "properties") as [props|] eqn:Hprops; [|reflexivity].
    destruct (items (py_or props (JObj []))) as [kvs|e] eqn:Hkvs; [|reflexivity].
    cbn [bind]. f_equal.
    apply foldM_ext. intros [k v] Hin out.
    destruct (is_dict v); [|reflexivity].
    assert (Hv : (S (depth v) < depth (JObj d))%nat).
    { apply lookup_In, depth_field in Hprops.
      unfold py_or in Hkvs. destruct (truthy props); [|now injection Hkvs as <-].
      destruct props; try discriminate. injection Hkvs as ->.
      apply depth_field in Hin. lia. }
    rewrite (IH m v) by lia. reflexivity.
  - destruct (str_eq _ "array"); [|reflexivity].
    destruct (lookup d "items") as [its|] eqn:Hits.
    + apply lookup_In, depth_field in Hits.
      rewrite (IH m its) by lia. reflexivity.
    + assert (Hd : (1 <= depth (JObj d))%nat) by (simpl; lia).
      destruct n as [|n]; [lia|]. destruct m as [|m]; [lia|].
      now rewrite !sample_fuel_empty_dict.
Qed.

Lemma foldM_not_raising {A S : Type} (e : exn) (body : S -> A -> result S)
  (l : list A) :
  (forall x, In x l -> forall s, body s x <> Raise e) ->
  forall s, foldM body l s <> Raise e.
Proof.
  induction l as [|x l IH]; intros H s; simpl; [discriminate|].
  destruct (body s x) as [s'|e'] eqn:Hb; simpl.
  - apply IH. intros; apply H; now right.
  - intros [= ->]. now apply (H x (or_introl eq_refl) s).
Qed.

(** The frames [sample_from_schema] starts with are enough: the recursion
    ends on every loaded value. *)
Lemma sample_fuel_enough (n : nat) :
  forall v, (depth v < n)%nat -> sample_fuel n v <> Raise RecursionError.
Proof.
  induction n as [|n IH]; intros v Hn; [lia|].
  destruct v as [| | | | | |d]; try discriminate.
  cbn [sample_fuel is_dict negb]. unfold get. cbn [get_or bind].
  match goal with |- (if ?c then _ else _) <> _ => destruct c end.
  - destruct (lookup d "properties") as [props|] eqn:Hprops; [|discriminate].
    destruct (items (py_or props (JObj []))) as [kvs|e] eqn:Hkvs.
    2:{ unfold py_or in Hkvs. destruct (truthy props); [|discriminate].
        destruct props; try discriminate; injection Hkvs as <-; discriminate. }
    cbn [bind].
    match goal with |- bind (foldM ?f kvs []) _ <> _ =>
      assert (Hfold := foldM_not_raising RecursionError f kvs);
      destruct (foldM f kvs []) as [out|e] eqn:Hout end; [discriminate|].
    cbn [bind]. intros [= ->]. eapply Hfold; [|exact Hout].
    intros [k v] Hin out.
    destruct (is_dict v); [|discriminate].
    assert (Hv : (S (depth v) < depth (JObj d))%nat).
    { apply lookup_In, depth_field in Hprops.
      unfold py_or in Hkvs. destruct (truthy props); [|now injection Hkvs as <-].
      destruct props; try discriminate. injection Hkvs as ->.
      apply depth_field in Hin. lia. }
    specialize (IH v ltac:(lia)).
    destruct (sample_fuel n v); [discriminate|]. cbn [bind]. congruence.
  - destruct (str_eq _ "array").
    2:{ repeat match goal with |- (if ?c then _ else _) <> _ => destruct c end;
        discriminate. }
    assert (Hits : forall its, (depth its < n)%nat \/ (its = JObj [] /\ (1 <= n)%nat) ->
                   (s <- sample_fuel n its ;; Ok (JArr [s])) <> Raise RecursionError).
    { intros its [Hlt|[-> Hge]].
      - specialize (IH its Hlt). destruct (sample_fuel n its); [discriminate|].
        cbn [bind]. congruence.
      - destruct n; [lia|]. discriminate. }
    destruct (lookup d "items") as [its|] eqn:Hl; apply Hits.
    + left. apply lookup_In, depth_field in Hl. lia.
    + right. split; [reflexivity|]. simpl in Hn. lia.
Qed.

Lemma sample_from_schema_ends (v : json) :
  sample_from_schema v <> Raise RecursionError.
Proof.
  apply sample_fuel_enough. lia.
Qed.

End Sampler.

(** C7. [sample_from_schema] raises on an object schema whose
    [properties] is a non-empty list: [props.items()] is reached without
    a test that [props] is a dict.  On the empty dict and on a value that
    is no dict it returns [None]. *)
Theorem sample_from_schema_raises_on_list_properties :
  sample_from_schema list_properties_schema = Raise AttributeError
  /\ sample_from_schema (JObj []) = Ok JNull
  /\ sample_from_schema (JInt 3) = Ok JNull.
Proof.
  repeat split; reflexivity.
Qed.

(** ** Operation lookup and the renderers *)

Section Lookup.


Lemma first_equivalent_first (paths : json) (route : string)
  (before after : list string) (p : string) (entry : json) :
  (forall q, In q before -> rstrip_slash q <> rstrip_slash route) ->
  rstrip_slash p = rstrip_slash route ->
  first_equivalent paths route (before ++ p :: after) entry = get paths p.
Proof.
  intros Hbefore Hp. induction before as [|k before IH]; simpl.
  - now rewrite Hp, String.eqb_refl.
  - destruct (String.eqb_spec (rstrip_slash k) (rstrip_slash route)) as [Heq|_].
    + exfalso. apply (Hbefore k); [now left|assumption].
    + apply IH. intros; apply Hbefore; now right.
Qed.

Lemma lookup_first (before after : list (string * json)) (p : string) (e : json) :
  ~ In p (map fst before) -> lookup (before ++ (p, e) :: after) p = Some e.
Proof.
  induction before as [|[k v] before IH]; simpl; intros H.
  - now rewrite String.eqb_refl.
  - destruct (String.eqb_spec k p) as [->|_]; [exfalso; auto|]. auto.
Qed.


Lemma first_occurrence (d : list (string * json)) (k : string) :
  In k (map fst d) ->
  exists before e after,
    d = before ++ (k, e) :: after /\ ~ In k (map fst before).
Proof.
  induction d as [|[k' v] d IH]; simpl; [contradiction|].
  destruct (String.eqb_spec k' k) as [->|Hne].
  - intros _. exists [], v, d. auto.
  - intros [Heq|Hin]; [contradiction|].
    destruct (IH Hin) as (before & e & after & -> & Hbefore).
    exists ((k', v) :: before), e, after. split; [reflexivity|].
    simpl. intros [Heq|H]; auto.
Qed.

(** [_find_operation] on a well-formed document, with the paths mapping
    in hand. *)
Lemma find_operation_unfold (strict : bool) (spec : json) (route method : string) :
  wf_spec strict spec = true ->
  _find_operation spec route method
  = (let paths := JObj (paths_of spec) in
     entry <- get paths route ;;
     entry <- (if negb (truthy entry) then
                 first_equivalent paths route (map fst (paths_of spec)) entry
               else Ok entry) ;;
     if negb (truthy entry) then Ok JNull else get entry (lower method)).
Proof.
  intros Hwf. destruct (wf_spec_inv _ _ Hwf) as (top & -> & Hpaths & _).
  destruct (paths_of_spec _ _ Hpaths) as [Hpy _].
  unfold _find_operation. cbn [get_or bind]. rewrite Hpy. reflexivity.
Qed.

Lemma renderers_not_found (json_dumps : json -> string) (spec : json)
  (route method : string) (op : json) :
  _find_operation spec route method = Ok op ->
  truthy op = false ->
  render_summary spec route method = Ok not_found
  /\ render_schema spec route method = Ok not_found
  /\ render_sample spec route method = Ok not_found
  /\ render_curl json_dumps spec route method = Ok not_found.
Proof.
  intros Hop Hfalsy.
  unfold render_summary, render_schema, render_sample, render_curl.
  rewrite Hop. cbn [bind]. rewrite Hfalsy. auto.
Qed.

Lemma wf_path_entry (strict : bool) (spec : json) (p : string) (entry : json) :
  wf_spec strict spec = true ->
  In (p, entry) (paths_of spec) ->
  exists ops, entry = JObj ops /\ values (wf_entry strict) ops = true.
Proof.
  intros Hwf Hin. destruct (wf_spec_inv _ _ Hwf) as (top & -> & Hpaths & _).
  destruct (paths_of_spec _ _ Hpaths) as [_ [Hnil|Hvalues]].
  - rewrite Hnil in Hin. contradiction.
  - unfold values in Hvalues. rewrite forallb_forall in Hvalues.
    specialize (Hvalues _ Hin). simpl in Hvalues.
    destruct entry as [| | | | | |ops]; try discriminate. eauto.
Qed.

End Lookup.



Section Renderers.

Lemma foldM_ok {A S : Type} (body : S -> A -> result S) (l : list A) :
  (forall x, In x l -> forall s, exists s', body s x = Ok s') ->
  forall s, exists r, foldM body l s = Ok r.
Proof.
  induction l as [|x l IH]; intros H s; simpl; [eauto|].
  destruct (H x (or_introl eq_refl) s) as [s' ->]. cbn [bind].
  apply IH. intros; apply H; now right.
Qed.

Lemma first_equivalent_entry (pis : list (string * json)) (route : string)
  (ks : list string) (entry : json) :
  (entry = JNull \/ exists p, In (p, entry) pis) ->
  exists e, first_equivalent (JObj pis) route ks entry = Ok e
            /\ (e = JNull \/ exists p, In (p, e) pis).
Proof.
  intros Hentry. induction ks as [|k ks IH]; simpl; [eauto|].
  destruct (String.eqb (rstrip_slash k) (rstrip_slash route)); [|assumption].
  unfold get. cbn [get_or]. destruct (lookup pis k) as [e|] eqn:Hl; eauto.
  apply lookup_In in Hl. eauto.
Qed.

(** On a document the renderers accept, the lookup returns, and what it
    returns is [None] or a well-formed operation. *)
Lemma find_operation_resolves (spec : json) (route method : string) :
  resolvable_spec spec = true ->
  exists op, _find_operation spec route method = Ok op
             /\ (op = JNull \/ wf_operation true op = true).
Proof.
  intros Hwf. rewrite (find_operation_unfold true) by assumption. cbv zeta.
  unfold get at 1. cbn [get_or bind].
  assert (Hdirect : let entry := match lookup (paths_of spec) route with
                                 | Some x => x | None => JNull end in
                    entry = JNull \/ exists p, In (p, entry) (paths_of spec)).
  { destruct (lookup (paths_of spec) route) as [e|] eqn:Hl; [|now left].
    right. apply lookup_In in Hl. eauto. }
  cbv zeta in Hdirect.
  assert (Hentry : exists e,
             (if negb (truthy match lookup (paths_of spec) route with
                              | Some x => x | None => JNull end)
              then first_equivalent (JObj (paths_of spec)) route
                     (map fst (paths_of spec))
                     match lookup (paths_of spec) route with
                     | Some x => x | None => JNull end
              else Ok match lookup (paths_of spec) route with
                      | Some x => x | None => JNull end) = Ok e
             /\ (e = JNull \/ exists p, In (p, e) (paths_of spec))).
  { destruct (negb _); [now apply first_equivalent_entry|eauto]. }
  destruct Hentry as (e & -> & He). cbn [bind].
  destruct He as [->|[p Hin]]; [exists JNull; auto|].
  destruct (wf_path_entry _ _ _ _ Hwf Hin) as (ops & -> & Hops).
  destruct (negb (truthy (JObj ops))); [exists JNull; auto|].
  unfold get. cbn [get_or].
  destruct (lookup ops (lower method)) as [info|] eqn:Hl; [|exists JNull; auto].
  exists info. split; [reflexivity|]. right.
  apply lookup_In in Hl. unfold values in Hops. rewrite forallb_forall in Hops.
  specialize (Hops _ Hl). unfold wf_entry in Hops. simpl in Hops.
  now rewrite orb_false_r in Hops.
Qed.

Lemma truthy_not_null (op : json) (P : Prop) :
  truthy op = true -> op = JNull \/ P -> P.
Proof.
  intros Ht [->|H]; [discriminate|assumption].
Qed.

(** The schema of a media type or parameter as the renderers read it:
    [x.get("schema") or {}] is a dict, the empty one or the declared. *)
Lemma schema_or_empty (x : json) (p : json -> bool) :
  dict_of (fun d => opt d "schema" p) x = true ->
  (forall s, p s = true -> is_dict s = true) ->
  exists s0 sd, get x "schema" = Ok s0
    /\ py_or s0 (JObj []) = JObj sd
    /\ (sd = [] \/ (s0 = JObj sd /\ p s0 = true)).
Proof.
  intros Hx Hp. destruct x as [| | | | | |d]; try discriminate. simpl in Hx.
  unfold get. cbn [get_or].
  destruct (opt_cases _ _ _ Hx) as [->|(v & -> & Hv)].
  - exists JNull, []. auto.
  - destruct (is_dict_inv _ (Hp _ Hv)) as [sd ->].
    exists (JObj sd). destruct sd as [|kv sd]; [exists []; auto|].
    exists (kv :: sd). auto.
Qed.

Lemma wf_schema_is_dict (strict : bool) (s : json) :
  wf_schema strict s = true -> is_dict s = true.
Proof.
  unfold wf_schema. intros H. apply andb_true_iff in H. tauto.
Qed.

Lemma collect_step (refs : list json) (x : json) (p : json -> bool) :
  dict_of (fun d => opt d "schema" p) x = true ->
  (forall s, p s = true -> is_dict s = true) ->
  exists refs',
    (sch <- get x "schema" ;;
     r <- get (py_or sch (JObj [])) "$ref" ;;
     Ok (if truthy r then refs ++ [r] else refs)) = Ok refs'.
Proof.
  intros Hx Hp. destruct (schema_or_empty x p Hx Hp) as (s0 & sd & -> & Hpy & _).
  cbn [bind]. rewrite Hpy. unfold get. cbn [get_or bind]. eauto.
Qed.

(** The request body's media types as the renderers reach them. *)
Lemma resolver_media (strict : bool) (d : list (string * json)) :
  opt d "requestBody" (wf_request_body strict) = true ->
  exists content,
    get (py_or (match lookup d "requestBody" with Some x => x | None => JNull end)
               (JObj [])) "content" = Ok content
    /\ items_if_dict (py_or content (JObj [])) = media_of (JObj d)
    /\ Forall (fun mc => wf_media strict (snd mc) = true) (media_of (JObj d)).
Proof.
  intros H. unfold media_of, field.
  destruct (opt_cases _ _ _ H) as [->|(rb & -> & Hrb)].
  - exists JNull. simpl. auto.
  - destruct rb as [| | | | | |rbd]; try discriminate. simpl in Hrb.
    destruct rbd as [|kv rbd]; [exists JNull; simpl; auto|].
    unfold py_or at 1. cbn [truthy is_nil negb]. unfold get. cbn [get_or].
    destruct (opt_cases _ _ _ Hrb) as [->|(content & -> & Hcontent)].
    + exists JNull. simpl. auto.
    + exists content. destruct content as [| | | | | |ms]; try discriminate.
      simpl in Hcontent. split; [reflexivity|]. split.
      * destruct ms; reflexivity.
      * unfold values in Hcontent. now apply Forall_forall, forallb_forall.
Qed.

Lemma collect_schema_refs_ok (strict : bool) (op : json) :
  wf_operation strict op = true -> exists refs, _collect_schema_refs op = Ok refs.
Proof.
  intros Hwf.
  destruct (wf_operation_inv _ _ Hwf) as (d & -> & _ & _ & _ & Hrb & Hps).
  destruct (resolver_media _ _ Hrb) as (content & Hcontent & Hmedia & Hwm).
  destruct (params_of_operation _ Hps) as (Hparams & Hwp).
  unfold _collect_schema_refs. unfold get at 1. cbn [get_or bind].
  rewrite Hcontent. cbn [bind]. rewrite Hmedia.
  match goal with |- context [foldM ?f (media_of (JObj d)) []] =>
    destruct (foldM_ok f (media_of (JObj d))) with (s := @nil json) as [refs ->] end.
  { intros mc Hin refs. rewrite Forall_forall in Hwm.
    apply (collect_step refs (snd mc) (wf_schema strict)); [now apply Hwm|].
    apply wf_schema_is_dict. }
  cbn [bind]. unfold get at 1. cbn [get_or bind].
  assert (Hiter : iter (py_or (match lookup d "parameters" with
                               | Some x => x | None => JNull end) (JArr []))
                  = Ok (params_of (JObj d))).
  { unfold params_of, field. unfold opt in Hps.
    destruct (lookup d "parameters") as [ps|]; [|reflexivity].
    destruct ps as [| | | | |l|]; try discriminate. destruct l; reflexivity. }
  rewrite Hiter. cbn [bind].
  apply foldM_ok. intros p Hin refs'. rewrite Forall_forall in Hwp.
  apply (collect_step refs' p is_dict); [now apply Hwp|auto].
Qed.

(** A reference resolves to [None] or to a component the sample
    generator returns on; only a string resolves to anything. *)
Lemma resolve_schema_ref_ok (spec ref : json) :
  resolvable_spec spec = true ->
  exists sch, _resolve_schema_ref spec ref = Ok sch
    /\ (truthy sch = true -> is_str ref = true /\ samplable sch = true).
Proof.
  intros Hwf. destruct (wf_spec_inv _ _ Hwf) as (top & -> & _ & Hcomp).
  assert (Hnull : exists sch : json, Ok JNull = Ok sch
            /\ (truthy sch = true -> is_str ref = true /\ samplable sch = true)).
  { exists JNull. split; [reflexivity|discriminate]. }
  unfold _resolve_schema_ref.
  destruct ref as [| | | |r| |]; try exact Hnull.
  destruct (startswith r _); [|exact Hnull].
  unfold get at 1. cbn [get_or bind].
  destruct (opt_cases _ _ _ Hcomp) as [->|(c & -> & Hc)]; [exact Hnull|].
  destruct c as [| | | | | |cd]; try discriminate. simpl in Hc.
  destruct cd as [|kv cd]; [exact Hnull|].
  unfold py_or at 1. cbn [truthy is_nil negb]. unfold get at 1. cbn [get_or bind].
  destruct (opt_cases _ _ _ Hc) as [->|(sc & -> & Hsc)]; [exact Hnull|].
  destruct sc as [| | | | | |scd]; try discriminate. simpl in Hsc.
  destruct scd as [|kv' scd]; [exact Hnull|].
  unfold py_or. cbn [truthy is_nil negb]. unfold get. cbn [get_or].
  destruct (lookup (kv' :: scd) _) as [sch|] eqn:Hl; [|exact Hnull].
  exists sch. split; [reflexivity|]. intros Ht. split; [reflexivity|].
  apply lookup_In in Hl. unfold values in Hsc. rewrite forallb_forall in Hsc.
  specialize (Hsc _ Hl). unfold wf_component in Hsc. simpl in Hsc.
  now rewrite Ht in Hsc.
Qed.

Lemma samplable_ok (v : json) :
  samplable v = true -> exists sample, sample_from_schema v = Ok sample.
Proof.
  unfold samplable. destruct (sample_from_schema v); [eauto|discriminate].
Qed.

Lemma py_or_schema_samplable (s0 : json) (sd : list (string * json)) :
  py_or s0 (JObj []) = JObj sd ->
  sd = [] \/ (s0 = JObj sd /\ wf_schema true s0 = true) ->
  exists sample, sample_from_schema (JObj sd) = Ok sample.
Proof.
  intros _ [->|[-> Hs]]; [now exists JNull|].
  apply samplable_ok. unfold wf_schema in Hs.
  apply andb_true_iff in Hs. now destruct Hs.
Qed.

Lemma media_sample_ok (spec c : json) :
  resolvable_spec spec = true -> wf_media true c = true ->
  exists sample, media_sample spec c = Ok sample.
Proof.
  intros Hwf Hc. unfold media_sample.
  destruct (schema_or_empty c (wf_schema true) Hc (wf_schema_is_dict true))
    as (s0 & sd & -> & Hpy & Hsd).
  cbn [bind]. rewrite Hpy. unfold get. cbn [get_or bind].
  destruct (truthy _).
  - destruct (resolve_schema_ref_ok spec
                match lookup sd "$ref" with Some x => x | None => JNull end Hwf)
      as (sch & -> & Hsch).
    cbn [bind]. destruct (truthy sch); [|eauto].
    apply samplable_ok. now apply Hsch.
  - now apply (py_or_schema_samplable s0).
Qed.

Lemma first_sample_ok (spec : json) (media : list (string * json)) :
  resolvable_spec spec = true ->
  Forall (fun mc => wf_media true (snd mc) = true) media ->
  exists found, first_sample spec media = Ok found
    /\ (found = None
        \/ exists mime sample ref,
             found = Some (JObj [("content_type", JStr mime);
                                 ("sample", sample);
                                 ("schema_ref", ref)])).
Proof.
  intros Hwf. induction 1 as [|[mime c] media Hc _ IH]; simpl; [eauto|].
  simpl in Hc.
  destruct (schema_or_empty c (wf_schema true) Hc (wf_schema_is_dict true))
    as (s0 & sd & -> & Hpy & Hsd).
  cbn [bind]. rewrite Hpy. unfold get. cbn [get_or bind].
  destruct (truthy _).
  - destruct (resolve_schema_ref_ok spec
                match lookup sd "$ref" with Some x => x | None => JNull end Hwf)
      as (sch & -> & Hsch).
    cbn [bind]. destruct (truthy sch); [|exact IH].
    destruct (samplable_ok sch) as [sample ->]; [now apply Hsch|].
    cbn [bind]. eexists. split; [reflexivity|]. right. eauto.
  - destruct (py_or_schema_samplable s0 sd Hpy Hsd) as [sample ->].
    cbn [bind]. eexists. split; [reflexivity|]. right. eauto.
Qed.

Lemma bind_ok {A B : Type} (m : result A) (k : A -> result B) (b : B) :
  bind m k = Ok b -> exists a, m = Ok a /\ k a = Ok b.
Proof.
  destruct m as [a|e]; simpl; [eauto|discriminate].
Qed.

(** Whatever the document, a result of [first_sample] has the shape of a
    sample. *)
Lemma first_sample_shape (spec : json) (media : list (string * json))
  (found : option json) :
  first_sample spec media = Ok found ->
  found = None
  \/ exists mime sample ref,
       found = Some (JObj [("content_type", JStr mime);
                           ("sample", sample);
                           ("schema_ref", ref)]).
Proof.
  revert found. induction media as [|[mime c] media IH]; intros found; simpl.
  - intros [= <-]. now left.
  - intros H. apply bind_ok in H. destruct H as (sch & _ & H).
    apply bind_ok in H. destruct H as (ref & _ & H).
    destruct (truthy ref).
    + apply bind_ok in H. destruct H as (schema_obj & _ & H).
      destruct (truthy schema_obj); [|now apply IH].
      apply bind_ok in H. destruct H as (sample & _ & [= <-]). right. eauto.
    + apply bind_ok in H. destruct H as (sample & _ & [= <-]). right. eauto.
Qed.

Lemma append_empty (s : string) : (s ++ EmptyString)%string = s.
Proof.
  induction s as [|c s IH]; simpl; [reflexivity|]. now rewrite IH.
Qed.

Lemma append_assoc (a b c : string) : ((a ++ b) ++ c = a ++ (b ++ c))%string.
Proof.
  induction a as [|x a IH]; simpl; [reflexivity|]. now rewrite IH.
Qed.

Section Bodies.

Variable json_dumps : json -> string.

Lemma add_body_none (spec : json) (media : list (string * json)) (curl : string) :
  Forall (fun mc => media_sample spec (snd mc) = Ok JNull) media ->
  add_body json_dumps spec media curl = Ok curl.
Proof.
  induction 1 as [|[mime c] media Hc _ IH]; simpl; [reflexivity|].
  simpl in Hc. now rewrite Hc.
Qed.

Lemma add_body_first (spec : json) (before after : list (string * json))
  (mime : string) (c sample : json) (curl : string) :
  Forall (fun mc => media_sample spec (snd mc) = Ok JNull) before ->
  media_sample spec c = Ok sample ->
  sample <> JNull ->
  add_body json_dumps spec (before ++ (mime, c) :: after) curl
  = Ok (curl ++ body_args json_dumps mime sample)%string.
Proof.
  intros Hbefore Hc Hsample.
  induction Hbefore as [|[mime' c'] before Hc' _ IH]; simpl.
  - rewrite Hc. cbn [bind]. destruct sample; try reflexivity. congruence.
  - simpl in Hc'. now rewrite Hc'.
Qed.

Lemma add_body_ok (spec : json) (media : list (string * json)) (curl : string) :
  resolvable_spec spec = true ->
  Forall (fun mc => wf_media true (snd mc) = true) media ->
  exists curl', add_body json_dumps spec media curl = Ok curl'.
Proof.
  intros Hwf. induction 1 as [|[mime c] media Hc _ IH]; simpl; [eauto|].
  destruct (media_sample_ok spec c Hwf Hc) as [sample ->]. cbn [bind].
  destruct (is_none sample); simpl; eauto.
Qed.

(** [render_curl] on a found operation, down to its loop. *)
Lemma render_curl_found (spec : json) (route method : string) (op : json) :
  resolvable_spec spec = true ->
  _find_operation spec route method = Ok op ->
  truthy op = true ->
  render_curl json_dumps spec route method
  = (curl <- add_body json_dumps spec (media_of op) (curl_base method route) ;;
     Ok (JObj [("curl", JStr (curl ++ curl_auth spec op))]))
  /\ Forall (fun mc => wf_media true (snd mc) = true) (media_of op).
Proof.
  intros Hwf Hop Ht.
  destruct (find_operation_resolves spec route method Hwf) as (op' & Hop' & Hshape).
  rewrite Hop in Hop'. injection Hop' as <-.
  apply (truthy_not_null _ _ Ht) in Hshape.
  destruct (wf_operation_inv _ _ Hshape) as (d & -> & _ & _ & _ & Hrb & _).
  destruct (resolver_media _ _ Hrb) as (content & Hcontent & Hmedia & Hwm).
  split; [|assumption].
  unfold render_curl. rewrite Hop. cbn [bind]. rewrite Ht. cbn [negb].
  unfold get at 1. cbn [get_or bind]. rewrite Hcontent. cbn [bind]. rewrite Hmedia.
  fold (curl_base method route).
  destruct (add_body _ _ _ _) as [curl|e]; [|reflexivity]. cbn [bind].
  destruct (wf_spec_inv _ _ Hwf) as (top & -> & _ & _).
  unfold get. cbn [get_or bind]. unfold curl_auth, security_declared, field.
  destruct (truthy match lookup d "security" with Some x => x | None => JNull end)
    eqn:Hsec; cbn [bind orb]; [now rewrite Hsec|].
  unfold py_or.
  destruct (truthy match lookup top "security" with Some x => x | None => JNull end)
    eqn:Hglobal; [now rewrite Hglobal|].
  cbn [truthy is_nil negb]. now rewrite append_empty.
Qed.

End Bodies.

End Renderers.

(** C9, as stated, fails: [GET /health] has no request body, and
    [render_sample] returns an error result other than "operation not
    found". *)
Lemma render_sample_other_error_counterexample :
  resolvable_spec health_spec = true
  /\ render_sample health_spec "/health" "get"
     = Ok (JObj [("error", JStr "no requestBody schema found")])
  /\ render_sample health_spec "/health" "get" <> Ok not_found.
Proof.
  repeat split; reflexivity || (intros H; discriminate H).
Qed.

(** C9, amended. Whatever the document, a result of [render_summary],
    [render_schema] or [render_curl] is the success result of that
    renderer or [{"error": "operation not found"}], and a result of
    [render_sample] is its success result or one of two error results,
    "operation not found" and "no requestBody schema found".  On a
    document the renderers accept, all four return. *)
Theorem renderers_results (json_dumps : json -> string) (spec : json)
  (route method : string) :
  (forall r, render_summary spec route method = Ok r ->
     r = not_found
     \/ exists summary description operationId refs,
          r = JObj [("route", JStr route);
                    ("method", JStr (lower method));
                    ("summary", summary);
                    ("description", description);
                    ("operationId", operationId);
                    ("schema_refs", JArr refs)])
  /\ (forall r, render_schema spec route method = Ok r ->
        r = not_found
        \/ exists schemas refs,
             r = JObj [("schemas", JObj schemas); ("refs", JArr refs)])
  /\ (forall r, render_sample spec route method = Ok r ->
        r = not_found
        \/ r = no_body
        \/ exists mime sample ref,
             r = JObj [("content_type", JStr mime);
                       ("sample", sample);
                       ("schema_ref", ref)])
  /\ (forall r, render_curl json_dumps spec route method = Ok r ->
        r = not_found \/ exists curl, r = JObj [("curl", JStr curl)])
  /\ (resolvable_spec spec = true ->
      exists r1 r2 r3 r4,
        render_summary spec route method = Ok r1
        /\ render_schema spec route method = Ok r2
        /\ render_sample spec route method = Ok r3
        /\ render_curl json_dumps spec route method = Ok r4).
Proof.
  split; [|split; [|split; [|split]]].
  - unfold render_summary. intros r H.
    apply bind_ok in H. destruct H as (op & _ & H).
    destruct (negb (truthy op)); [injection H as <-; now left|].
    repeat (apply bind_ok in H; destruct H as (? & _ & H)).
    injection H as <-. right. eauto 6.
  - unfold render_schema. intros r H.
    apply bind_ok in H. destruct H as (op & _ & H).
    destruct (negb (truthy op)); [injection H as <-; now left|].
    repeat (apply bind_ok in H; destruct H as (? & _ & H)).
    injection H as <-. right. eauto.
  - unfold render_sample. intros r H.
    apply bind_ok in H. destruct H as (op & _ & H).
    destruct (negb (truthy op)); [injection H as <-; now left|].
    apply bind_ok in H. destruct H as (rb & _ & H).
    apply bind_ok in H. destruct H as (content & _ & H).
    apply bind_ok in H. destruct H as (found & Hfound & H).
    apply first_sample_shape in Hfound.
    destruct Hfound as [->|(mime & sample & ref & ->)]; injection H as <-; eauto 7.
  - unfold render_curl. intros r H.
    apply bind_ok in H. destruct H as (op & _ & H).
    destruct (negb (truthy op)); [injection H as <-; now left|].
    repeat (apply bind_ok in H; destruct H as (? & _ & H)).
    injection H as <-. right. eauto.
  - intros Hwf.
    destruct (find_operation_resolves spec route method Hwf) as (op & Hop & Hshape).
    destruct (truthy op) eqn:Ht.
    2:{ destruct (renderers_not_found json_dumps _ _ _ _ Hop Ht) as (-> & -> & -> & ->).
        eauto 8. }
    apply (truthy_not_null _ _ Ht) in Hshape.
    destruct (collect_schema_refs_ok _ _ Hshape) as [refs Hrefs].
    destruct (render_curl_found json_dumps spec route method op Hwf Hop Ht)
      as [Hcurl Hwm].
    destruct (wf_operation_inv _ _ Hshape) as (d & -> & _ & _ & _ & Hrb & _).
    rewrite Hcurl.
    destruct (add_body_ok json_dumps spec _ (curl_base method route) Hwf Hwm)
      as [curl ->].
    unfold render_summary, render_schema, render_sample.
    rewrite Hop. cbn [bind]. rewrite Ht. cbn [negb]. rewrite Hrefs.
    unfold get. cbn [get_or bind].
    match goal with |- context [foldM ?f refs []] =>
      destruct (foldM_ok f refs) with (s := @nil (string * json)) as [schemas ->] end.
    { intros r _ schemas.
      destruct (resolve_schema_ref_ok spec r Hwf) as (sch & -> & Hsch).
      cbn [bind]. destruct (truthy sch); [|eauto].
      destruct Hsch as [Hstr _]; [reflexivity|].
      destruct r; try discriminate. cbn [split_last bind]. eauto. }
    destruct (resolver_media _ _ Hrb) as (content & Hcontent & Hmedia & _).
    unfold get in Hcontent. rewrite Hcontent. cbn [bind]. rewrite Hmedia.
    destruct (first_sample_ok spec _ Hwf Hwm) as (found & -> & _).
    cbn [bind]. destruct found; eauto 8.
Qed.

Lemma renderers_results_witness :
  resolvable_spec notes_spec = true
  /\ exists r1 r2 r3 r4,
       render_summary notes_spec "/notes/" "POST" = Ok r1
       /\ render_schema notes_spec "/notes/" "POST" = Ok r2
       /\ render_sample notes_spec "/notes/" "POST" = Ok r3
       /\ render_curl Encoder.dumps notes_spec "/notes/" "POST" = Ok r4.
Proof.
  split; [reflexivity|].
  apply (renderers_results Encoder.dumps notes_spec "/notes/" "POST"). reflexivity.
Defined.

(** C10, as stated, fails: the first media type of [POST /notes],
    [text/plain], gives no sample, and the command carries the header
    and body of the second. *)
Lemma render_curl_second_media_type_counterexample :
  map fst (media_of notes_operation) = ["text/plain"; "application/json"]
  /\ render_curl Encoder.dumps notes_spec "/notes" "post"
     = Ok (JObj [("curl",
                  JStr (curl_base "post" "/notes"
                        ++ " -H " ++ dquote ++ "Content-Type: application/json" ++ dquote
                        ++ " -d '" ++ dquote ++ "string_example" ++ dquote ++ "'"))]).
Proof.
  split; reflexivity.
Qed.

(** C10, amended. For a resolved operation, [render_curl] goes through
    the media types of the request body in encounter order and uses the
    first whose sample is not [None]: it appends one Content-Type header
    and one JSON-encoded body for it and stops.  When no media type
    gives a sample it appends neither.  At most one media type
    contributes to the command. *)
Theorem render_curl_first_sampled_media_type (json_dumps : json -> string)
  (spec : json) (route method : string) (op : json) :
  resolvable_spec spec = true ->
  _find_operation spec route method = Ok op ->
  truthy op = true ->
  (forall before mime c after sample,
      media_of op = before ++ (mime, c) :: after ->
      Forall (fun mc => media_sample spec (snd mc) = Ok JNull) before ->
      media_sample spec c = Ok sample ->
      sample <> JNull ->
      render_curl json_dumps spec route method
      = Ok (JObj [("curl",
                   JStr (curl_base method route
                         ++ body_args json_dumps mime sample
                         ++ curl_auth spec op))]))
  /\ (Forall (fun mc => media_sample spec (snd mc) = Ok JNull) (media_of op) ->
      render_curl json_dumps spec route method
      = Ok (JObj [("curl", JStr (curl_base method route ++ curl_auth spec op))])).
Proof.
  intros Hwf Hop Ht.
  destruct (render_curl_found json_dumps spec route method op Hwf Hop Ht)
    as [-> _].
  split.
  - intros before mime c after sample -> Hbefore Hc Hsample.
    rewrite (add_body_first json_dumps spec before after mime c sample)
      by assumption.
    cbn [bind]. now rewrite append_assoc.
  - intros Hnone. now rewrite add_body_none.
Qed.

Lemma render_curl_first_sampled_media_type_witness :
  resolvable_spec notes_spec = true
  /\ _find_operation notes_spec "/notes" "post" = Ok notes_operation
  /\ truthy notes_operation = true
  /\ render_curl Encoder.dumps notes_spec "/notes" "post"
     = Ok (JObj [("curl",
                  JStr (curl_base "post" "/notes"
                        ++ body_args Encoder.dumps "application/json"
                                     (JStr "string_example")
                        ++ curl_auth notes_spec notes_operation))]).
Proof.
  do 3 (split; [reflexivity|]).
  destruct (render_curl_first_sampled_media_type Encoder.dumps notes_spec
              "/notes" "post" notes_operation eq_refl eq_refl eq_refl)
    as [Hfirst _].
  apply (Hfirst [("text/plain", JObj [])] "application/json"
                (JObj [("schema", JObj [("type", JStr "string")])]) []).
  - reflexivity.
  - repeat constructor.
  - reflexivity.
  - discriminate.
Defined.

(** * Further properties *)

(** ** Tokenizer and scorer *)

Section Tokens.

Lemma all_chars_ext (p q : ascii -> bool) (s : string) :
  (forall c, p c = true -> q c = true) -> all_chars p s = true -> all_chars q s = true.
Proof.
  intros Hpq. induction s as [|c s IH]; simpl; [reflexivity|].
  intros H. apply andb_true_iff in H. destruct H as [Hc Hs].
  apply andb_true_iff. auto.
Qed.

Lemma split_by_pieces (sep : ascii -> bool) (s : string) :
  Forall (fun t => all_chars (fun c => negb (sep c)) t = true) (split_by sep s).
Proof.
  induction s as [|c s IH]; simpl; [repeat constructor|].
  destruct (sep c) eqn:Hc; [constructor; [reflexivity|assumption]|].
  destruct (split_by sep s) as [|h t]; [repeat constructor; simpl; now rewrite Hc|].
  inversion IH as [|? ? Hh Ht]; subst. constructor; [|assumption].
  simpl. now rewrite Hc, Hh.
Qed.

Lemma fields_pieces (sep : ascii -> bool) (s : string) :
  Forall (fun t => t <> EmptyString /\ all_chars (fun c => negb (sep c)) t = true)
         (fields sep s).
Proof.
  unfold fields. apply Forall_forall. intros t Ht.
  apply filter_In in Ht. destruct Ht as [Hin Hne]. split.
  - intros ->. discriminate.
  - assert (H := split_by_pieces sep s). rewrite Forall_forall in H. now apply H.
Qed.

Lemma lower_upper_char (c : ascii) : lower_char (upper_char c) = lower_char c.
Proof.
  destruct c as [[] [] [] [] [] [] [] []]; reflexivity.
Qed.

Lemma lower_lower_char (c : ascii) : lower_char (lower_char c) = lower_char c.
Proof.
  destruct c as [[] [] [] [] [] [] [] []]; reflexivity.
Qed.

Lemma lower_upper (s : string) : lower (upper s) = lower s.
Proof.
  induction s as [|c s IH]; simpl; [reflexivity|].
  unfold lower, upper in *. simpl. now rewrite lower_upper_char, IH.
Qed.

Lemma lower_lower (s : string) : lower (lower s) = lower s.
Proof.
  induction s as [|c s IH]; simpl; [reflexivity|].
  unfold lower in *. simpl. now rewrite lower_lower_char, IH.
Qed.

Lemma zsum_app (l l' : list Z) : zsum (l ++ l') = zsum l + zsum l'.
Proof.
  induction l as [|x l IH]; simpl; [reflexivity|]. rewrite IH. lia.
Qed.

Lemma zsum_perm (l l' : list Z) : Permutation l l' -> zsum l = zsum l'.
Proof.
  induction 1; simpl; lia.
Qed.

Lemma zsum_bounds (lo hi : Z) (l : list Z) :
  Forall (fun x => lo <= x <= hi) l ->
  lo * Z.of_nat (List.length l) <= zsum l <= hi * Z.of_nat (List.length l).
Proof.
  induction 1 as [|x l Hx _ IH]; simpl List.length; simpl zsum; [lia|].
  rewrite Nat2Z.inj_succ. lia.
Qed.

(** Whatever the operation, [score_endpoint] raises before it looks at
    the query, or it returns the sum of the points of the tokens, each
    between 0 and 7. *)
Lemma score_endpoint_shape (path method : string) (info components_schemas : json) :
  (exists e, forall tokens,
      score_endpoint tokens path method info components_schemas = Raise e)
  \/ (exists points : string -> Z,
        (forall t, 0 <= points t <= 7)
        /\ forall tokens,
             score_endpoint tokens path method info components_schemas
             = Ok (zsum (map points tokens))).
Proof.
  unfold score_endpoint.
  repeat match goal with
         | |- context [bind ?m _] =>
             match m with
             | context [fold_left] => fail 1
             | _ => destruct m eqn:?; cbn [bind]; [|left; eexists; intros; reflexivity]
             end
         end.
  right.
  match goal with
  | |- context [fold_left (token_score ?pl ?ops ?sums ?descs ?names)] =>
      exists (fun t => token_score pl ops sums descs names 0 t); split;
      [|intros tokens;
        rewrite (fold_token_score pl ops sums descs names
                   (fun t => token_score pl ops sums descs names 0 t));
        [reflexivity|]]
  end.
  - intros t. unfold token_score, b2z.
    repeat match goal with |- context [if ?b then _ else _] => destruct b end; lia.
  - intros t acc. unfold token_score. lia.
Qed.

End Tokens.

(** X1. Every token [_tokens] returns is non-empty and made of the
    characters [a-z0-9] only. *)
Theorem tokens_lowercase_alnum (text : json) (tokens : list string) :
  _tokens text = Ok tokens ->
  Forall (fun t => t <> EmptyString /\ all_chars is_alnum_lower t = true) tokens.
Proof.
  unfold _tokens. destruct (negb (truthy text)); [intros [= <-]; constructor|].
  destruct text; try discriminate. intros [= <-].
  eapply Forall_impl; [|apply fields_pieces].
  intros t [Hne Hall]. split; [assumption|].
  eapply all_chars_ext; [|exact Hall].
  intros c Hc. now apply negb_true_iff, negb_false_iff in Hc.
Qed.

Lemma tokens_lowercase_alnum_witness :
  _tokens (JStr "GET /v2/Orders") = Ok ["get"; "v2"; "orders"]
  /\ Forall (fun t => t <> EmptyString /\ all_chars is_alnum_lower t = true)
            ["get"; "v2"; "orders"].
Proof.
  split; [reflexivity|].
  apply (tokens_lowercase_alnum (JStr "GET /v2/Orders")). reflexivity.
Defined.

(** X2. On ASCII text the tokenizer ignores case: a text and its
    upper-cased or lower-cased form give the same tokens. *)
Theorem tokens_ignore_case (s : string) :
  all_chars is_ascii s = true ->
  _tokens (JStr (upper s)) = _tokens (JStr s)
  /\ _tokens (JStr (lower s)) = _tokens (JStr s).
Proof.
  intros _. unfold _tokens. split.
  - destruct s as [|c s]; [reflexivity|].
    change (upper (String c s)) with (String (upper_char c) (upper s)).
    cbn [truthy is_empty negb].
    change (String (upper_char c) (upper s)) with (upper (String c s)).
    now rewrite lower_upper.
  - destruct s as [|c s]; [reflexivity|].
    change (lower (String c s)) with (String (lower_char c) (lower s)) at 1.
    cbn [truthy is_empty negb].
    change (String (lower_char c) (lower s)) with (lower (String c s)).
    now rewrite lower_lower.
Qed.

Lemma tokens_ignore_case_witness :
  all_chars is_ascii "List Orders-v2" = true
  /\ _tokens (JStr "List Orders-v2") = Ok ["list"; "orders"; "v2"]
  /\ _tokens (JStr (upper "List Orders-v2")) = _tokens (JStr "List Orders-v2")
  /\ _tokens (JStr (lower "List Orders-v2")) = _tokens (JStr "List Orders-v2").
Proof.
  split; [reflexivity|]. split; [reflexivity|].
  apply (tokens_ignore_case "List Orders-v2"). reflexivity.
Defined.

(** X3. The score does not depend on the order of the query tokens:
    on a permutation of the tokens [score_endpoint] gives the same
    result, the same exception included. *)
Theorem score_endpoint_order_independent (tokens tokens' : list string)
  (path method : string) (info components_schemas : json) :
  Permutation tokens tokens' ->
  score_endpoint tokens path method info components_schemas
  = score_endpoint tokens' path method info components_schemas.
Proof.
  intros Hperm.
  destruct (score_endpoint_shape path method info components_schemas)
    as [[e He]|(points & _ & Hsum)].
  - now rewrite !He.
  - rewrite !Hsum. f_equal. apply zsum_perm. now apply Permutation_map.
Qed.

Lemma score_endpoint_order_independent_witness :
  Permutation ["health"; "status"] ["status"; "health"]
  /\ score_endpoint ["health"; "status"] "/status" "get" status_info (JObj [])
     = score_endpoint ["status"; "health"] "/status" "get" status_info (JObj []).
Proof.
  split; [apply perm_swap|].
  apply (score_endpoint_order_independent ["health"; "status"] ["status"; "health"]).
  apply perm_swap.
Defined.

(** X4. The score is additive in the query: the score of two token
    lists put together is the sum of their scores. *)
Theorem score_endpoint_additive (tokens tokens' : list string)
  (path method : string) (info components_schemas : json) (a b : Z) :
  score_endpoint tokens path method info components_schemas = Ok a ->
  score_endpoint tokens' path method info components_schemas = Ok b ->
  score_endpoint (tokens ++ tokens') path method info components_schemas = Ok (a + b).
Proof.
  destruct (score_endpoint_shape path method info components_schemas)
    as [[e He]|(points & _ & Hsum)].
  - rewrite He. discriminate.
  - rewrite !Hsum. intros [= <-] [= <-]. now rewrite map_app, zsum_app.
Qed.

Lemma score_endpoint_additive_witness :
  score_endpoint ["health"] "/status" "get" status_info (JObj []) = Ok 2
  /\ score_endpoint ["status"] "/status" "get" status_info (JObj []) = Ok 3
  /\ score_endpoint (["health"] ++ ["status"]) "/status" "get" status_info (JObj [])
     = Ok (2 + 3).
Proof.
  do 2 (split; [reflexivity|]).
  apply (score_endpoint_additive ["health"] ["status"]); reflexivity.
Defined.

(** X5. A score is never negative and never above 7 points per query
    token (3 for the path, 2 for operationId or summary, 1 for the
    description, 1 for a schema name); an empty query scores 0. *)
Theorem score_endpoint_bounds (tokens : list string) (path method : string)
  (info components_schemas : json) (s : Z) :
  score_endpoint tokens path method info components_schemas = Ok s ->
  0 <= s <= 7 * Z.of_nat (List.length tokens).
Proof.
  destruct (score_endpoint_shape path method info components_schemas)
    as [[e He]|(points & Hpoints & Hsum)].
  - rewrite He. discriminate.
  - rewrite Hsum. intros [= <-].
    assert (H := zsum_bounds 0 7 (map points tokens)).
    rewrite length_map in H. apply H.
    apply Forall_forall. intros x Hx. apply in_map_iff in Hx.
    destruct Hx as (t & <- & _). apply Hpoints.
Qed.

Lemma score_endpoint_bounds_witness :
  score_endpoint ["health"; "status"] "/status" "get" status_info (JObj []) = Ok 5
  /\ 0 <= 5 <= 7 * Z.of_nat (List.length ["health"; "status"]).
Proof.
  split; [reflexivity|].
  apply (score_endpoint_bounds ["health"; "status"] "/status" "get" status_info (JObj [])).
  reflexivity.
Defined.

(** ** Ranker *)

Section Ranking.

Lemma unique_In (xs : list string) (x : string) : In x (unique xs) <-> In x xs.
Proof.
  induction xs as [|y xs IH]; simpl; [tauto|].
  rewrite filter_In, IH. split.
  - intros [H|[H _]]; auto.
  - intros [H|H]; [now left|].
    destruct (String.eqb_spec y x) as [Heq|Hne]; [now left|]. right. auto.
Qed.

Lemma unique_NoDup (xs : list string) : NoDup (unique xs).
Proof.
  induction xs as [|y xs IH]; simpl; constructor.
  - rewrite filter_In. intros [_ H]. now rewrite String.eqb_refl in H.
  - now apply NoDup_filter.
Qed.

Lemma slice_to_negative_length {A : Type} (l : list A) (k : Z) :
  k < 0 ->
  Z.of_nat (List.length (slice_to l k)) = Z.max 0 (Z.of_nat (List.length l) + k).
Proof.
  intros Hk. unfold slice_to. destruct (Z.leb_spec 0 k); [lia|].
  rewrite length_firstn. lia.
Qed.

Lemma slice_to_all {A : Type} (l : list A) (k : Z) :
  Z.of_nat (List.length l) <= k -> slice_to l k = l.
Proof.
  intros Hk. unfold slice_to. destruct (Z.leb_spec 0 k); [|lia].
  apply firstn_all2. lia.
Qed.

Lemma slice_to_prefix {A : Type} (l : list A) (k1 k2 : Z) :
  0 <= k1 <= k2 -> slice_to l k1 = firstn (Z.to_nat k1) (slice_to l k2).
Proof.
  intros Hk. unfold slice_to.
  destruct (Z.leb_spec 0 k1); [|lia]. destruct (Z.leb_spec 0 k2); [|lia].
  rewrite firstn_firstn. f_equal. lia.
Qed.

Lemma ranking_length (tokens : list string) (ops : list (string * string * json)) :
  List.length (sort (map (candidate_for tokens) ops)) = List.length ops.
Proof.
  now rewrite (Permutation_length (sort_perm _)), length_map.
Qed.

End Ranking.

(** X6. On a well-formed document [find_candidates] returns exactly
    [min(top_k, n)] candidates for [top_k >= 0], where [n] is the number
    of operations; a negative [top_k] drops the last [-top_k] candidates
    of the ranking instead. *)
Theorem find_candidates_length (spec : json) (query : string) (top_k : Z) :
  well_formed_spec spec = true ->
  exists candidates,
    find_candidates spec query top_k = Ok candidates
    /\ Z.of_nat (List.length candidates)
       = if 0 <=? top_k
         then Z.min top_k (Z.of_nat (List.length (operations spec)))
         else Z.max 0 (Z.of_nat (List.length (operations spec)) + top_k).
Proof.
  intros Hwf. eexists. split; [now apply (find_candidates_ranking false)|].
  destruct (Z.leb_spec 0 top_k).
  - rewrite slice_to_length, ranking_length by assumption. lia.
  - rewrite slice_to_negative_length, ranking_length by assumption. reflexivity.
Qed.

Lemma find_candidates_length_witness :
  well_formed_spec notes_spec = true
  /\ exists candidates,
       find_candidates notes_spec "notes" (-1) = Ok candidates
       /\ Z.of_nat (List.length candidates)
          = if 0 <=? -1
            then Z.min (-1) (Z.of_nat (List.length (operations notes_spec)))
            else Z.max 0 (Z.of_nat (List.length (operations notes_spec)) + -1).
Proof.
  split; [reflexivity|].
  apply (find_candidates_length notes_spec "notes" (-1)). reflexivity.
Defined.

(** X7. When [top_k] is at least the number of operations, every
    operation of a well-formed document is returned exactly once,
    whatever its score: the ranking does not drop zero-score
    operations. *)
Theorem find_candidates_lists_every_operation (spec : json) (query : string)
  (top_k : Z) :
  well_formed_spec spec = true ->
  Z.of_nat (List.length (operations spec)) <= top_k ->
  exists candidates,
    find_candidates spec query top_k = Ok candidates
    /\ Permutation (map candidate_key candidates)
                   (map operation_key (operations spec)).
Proof.
  intros Hwf Hk. eexists. split; [now apply (find_candidates_ranking false)|].
  rewrite slice_to_all by (rewrite ranking_length; assumption).
  rewrite (Permutation_map candidate_key (sort_perm _)), map_map.
  erewrite map_ext; [reflexivity|]. intros [[r m] info]. reflexivity.
Qed.

Lemma find_candidates_lists_every_operation_witness :
  well_formed_spec health_spec = true
  /\ Z.of_nat (List.length (operations health_spec)) <= 10
  /\ exists candidates,
       find_candidates health_spec "unrelated words" 10 = Ok candidates
       /\ Permutation (map candidate_key candidates)
                      (map operation_key (operations health_spec)).
Proof.
  split; [reflexivity|]. split; [simpl; lia|].
  apply (find_candidates_lists_every_operation health_spec "unrelated words" 10);
    [reflexivity|simpl; lia].
Defined.

(** X8. Raising [top_k] only extends the answer: for
    [0 <= k1 <= k2] the candidates for [k1] are the first [k1] of the
    candidates for [k2]. *)
Theorem find_candidates_prefix (spec : json) (query : string) (k1 k2 : Z) :
  well_formed_spec spec = true ->
  0 <= k1 <= k2 ->
  exists c1 c2,
    find_candidates spec query k1 = Ok c1
    /\ find_candidates spec query k2 = Ok c2
    /\ c1 = firstn (Z.to_nat k1) c2.
Proof.
  intros Hwf Hk. do 2 eexists.
  split; [now apply (find_candidates_ranking false)|].
  split; [now apply (find_candidates_ranking false)|].
  now apply slice_to_prefix.
Qed.

Lemma find_candidates_prefix_witness :
  well_formed_spec shop_spec = true
  /\ 0 <= 2 <= 4
  /\ find_candidates shop_spec "list orders" 2 = Ok (firstn 2 shop_ranking)
  /\ find_candidates shop_spec "list orders" 4 = Ok (firstn 4 shop_ranking)
  /\ exists c1 c2,
       find_candidates shop_spec "list orders" 2 = Ok c1
       /\ find_candidates shop_spec "list orders" 4 = Ok c2
       /\ c1 = firstn (Z.to_nat 2) c2.
Proof.
  split; [reflexivity|]. split; [lia|].
  split; [reflexivity|]. split; [reflexivity|].
  apply (find_candidates_prefix shop_spec "list orders" 2 4); [reflexivity|lia].
Defined.

(** X9. Every candidate [find_candidates] returns on a well-formed
    document is an operation of the document, under its route and its
    method key as written, and carries the score [score_endpoint] gives
    that operation for the tokens of the query; its [schema_refs] list
    has no duplicates. *)
Theorem find_candidates_candidates (spec : json) (query : string) (top_k : Z)
  (candidates : list Candidate) (c : Candidate) :
  well_formed_spec spec = true ->
  find_candidates spec query top_k = Ok candidates ->
  In c candidates ->
  NoDup (schema_refs c)
  /\ exists info tokens s,
       In (route c, method c, info) (operations spec)
       /\ _tokens (JStr query) = Ok tokens
       /\ score c = Some s
       /\ forall components_schemas,
            score_endpoint tokens (route c) (method c) info components_schemas = Ok s.
Proof.
  intros Hwf Hfc Hc.
  rewrite (find_candidates_ranking false) in Hfc by assumption.
  injection Hfc as <-. apply slice_to_incl in Hc.
  apply (Permutation_in _ (sort_perm _)) in Hc.
  apply in_map_iff in Hc. destruct Hc as ([[r m] info] & <- & Hop).
  split; [apply unique_NoDup|].
  exists info, (tokens_of query). eexists.
  split; [exact Hop|]. split; [apply tokens_of_query|]. split; [reflexivity|].
  intros components_schemas. apply (score_endpoint_points false).
  assert (Hdict : is_dict info = true).
  { unfold operations in Hop.
    destruct spec as [| | | | | |top]; try contradiction.
    destruct (lookup top "paths") as [[| | | | | |pis]|]; try contradiction.
    apply in_flat_map in Hop. destruct Hop as (rm & _ & Hop).
    apply in_map_iff in Hop. destruct Hop as (mi & [= _ _ <-] & Hmi).
    apply filter_In in Hmi. tauto. }
  destruct (wf_spec_inv _ _ Hwf) as (top & -> & Hpaths & _).
  destruct (paths_of_spec _ _ Hpaths) as [_ Hitems].
  unfold operations in Hop. unfold paths_of in Hitems.
  destruct (lookup top "paths") as [[| | | | | |pis]|]; try contradiction.
  destruct Hitems as [->|Hvalues]; [contradiction|].
  apply in_flat_map in Hop. destruct Hop as ([route' methods] & Hrm & Hop).
  apply in_map_iff in Hop. destruct Hop as ([m' info'] & [= _ _ ->] & Hmi).
  apply filter_In in Hmi. destruct Hmi as [Hmi _].
  unfold values in Hvalues. rewrite forallb_forall in Hvalues.
  specialize (Hvalues _ Hrm). simpl in Hvalues, Hmi.
  destruct methods as [| | | | | |ops]; try discriminate. simpl in Hvalues, Hmi.
  unfold values in Hvalues. rewrite forallb_forall in Hvalues.
  specialize (Hvalues _ Hmi). unfold wf_entry in Hvalues. simpl in Hvalues.
  rewrite Hdict in Hvalues. simpl in Hvalues. now rewrite orb_false_r in Hvalues.
Qed.

Lemma find_candidates_candidates_witness :
  well_formed_spec health_spec = true
  /\ find_candidates health_spec "health" 5 = Ok [health_candidate 5]
  /\ In (health_candidate 5) [health_candidate 5]
  /\ NoDup (schema_refs (health_candidate 5)).
Proof.
  split; [reflexivity|]. split; [reflexivity|]. split; [now left|].
  apply (find_candidates_candidates health_spec "health" 5 [health_candidate 5]
           (health_candidate 5)); [reflexivity|reflexivity|now left].
Defined.

(** ** Disambiguator *)

Section Answers.

Lemma split_by_unbroken (sep : ascii -> bool) (s : string) :
  all_chars (fun c => negb (sep c)) s = true -> split_by sep s = [s].
Proof.
  induction s as [|c s IH]; simpl; [reflexivity|].
  intros H. apply andb_true_iff in H. destruct H as [Hc Hs].
  apply negb_true_iff in Hc. now rewrite Hc, IH.
Qed.

Lemma split_by_at (sep : ascii -> bool) (a b : string) (c : ascii) :
  all_chars (fun c => negb (sep c)) a = true ->
  sep c = true ->
  split_by sep (a ++ String c b) = a :: split_by sep b.
Proof.
  intros Ha Hc. induction a as [|x a IH]; simpl.
  - now rewrite Hc.
  - simpl in Ha. apply andb_true_iff in Ha. destruct Ha as [Hx Ha].
    apply negb_true_iff in Hx. now rewrite Hx, IH.
Qed.

Lemma rstrip_unbroken (p : ascii -> bool) (s : string) :
  all_chars (fun c => negb (p c)) s = true -> rstrip_by p s = s.
Proof.
  induction s as [|c s IH]; simpl; [reflexivity|].
  intros H. apply andb_true_iff in H. destruct H as [Hc Hs].
  apply negb_true_iff in Hc. now rewrite Hc, IH.
Qed.

Lemma rstrip_kept_end (p : ascii -> bool) (a b : string) :
  b <> EmptyString ->
  all_chars (fun c => negb (p c)) b = true ->
  rstrip_by p (a ++ b) = (a ++ b)%string.
Proof.
  intros Hne Hb. induction a as [|x a IH]; simpl.
  - now apply rstrip_unbroken.
  - rewrite IH. destruct (a ++ b)%string eqn:Hab.
    + destruct a; [simpl in Hab; contradiction|discriminate].
    + now rewrite andb_false_r.
Qed.

Lemma strip_kept (c : ascii) (tail a b : string) :
  is_space c = false ->
  String c tail = (a ++ b)%string ->
  b <> EmptyString ->
  all_chars (fun ch => negb (is_space ch)) b = true ->
  strip (String c tail) = String c tail.
Proof.
  intros Hc Heq Hne Hb. unfold strip. cbn [lstrip_by]. rewrite Hc, Heq.
  now apply rstrip_kept_end.
Qed.

Lemma space_lower_char (c : ascii) : is_space (lower_char c) = is_space c.
Proof.
  destruct c as [[] [] [] [] [] [] [] []]; reflexivity.
Qed.

Lemma unbroken_lower (s : string) :
  all_chars (fun c => negb (is_space c)) (lower s) = true ->
  all_chars (fun c => negb (is_space c)) s = true.
Proof.
  induction s as [|c s IH]; simpl; [reflexivity|].
  rewrite space_lower_char. intros H.
  apply andb_true_iff in H. destruct H as [Hc Hs].
  apply andb_true_iff. auto.
Qed.

(** What the parsing steps of [choose] make of a token whose lower-cased
    form is one of the valid methods. *)
Lemma valid_method_parse (lm : string) :
  mem lm VALID_METHODS = true ->
  all_chars (fun c => negb (is_space c)) lm = true
  /\ lm <> EmptyString
  /\ filter_chars is_lower
       (if contains "=" (strip lm) then last_segment "="%char (strip lm) else strip lm)
     = lm.
Proof.
  unfold mem, VALID_METHODS. simpl. intros H.
  repeat (apply orb_true_iff in H; destruct H as [H|H];
          [apply String.eqb_eq in H; subst lm;
           repeat split; reflexivity || discriminate|]).
  discriminate.
Qed.

End Answers.

(** X10. When the model answers with the route of a listed candidate and
    its method in any letter case, [choose] returns that route with the
    method lower-cased.  The route is ASCII text that starts with a
    slash and holds no white space; the method is one of the seven valid
    ones. *)
Theorem choose_confirms_listed_answer (question : string)
  (candidates : list Candidate) (c : Candidate) (tail answered : string) :
  In c candidates ->
  route c = String "/"%char tail ->
  all_chars is_ascii (route c) = true ->
  all_chars (fun ch => negb (is_space ch)) (route c) = true ->
  mem (lower (method c)) VALID_METHODS = true ->
  lower answered = lower (method c) ->
  choose question candidates (route c ++ " " ++ answered)
  = Ok (chosen (route c) (lower (method c))).
Proof.
  intros Hin Hroute _ Hunbroken Hvalid Hanswer.
  destruct (valid_method_parse _ Hvalid) as (Hm & Hne & Hparse).
  assert (Ha : all_chars (fun ch => negb (is_space ch)) answered = true)
    by (apply unbroken_lower; now rewrite Hanswer).
  assert (Hane : answered <> EmptyString)
    by (intros ->; apply Hne; now rewrite <- Hanswer).
  rewrite choose_is_try by (destruct candidates; [contradiction|reflexivity]).
  unfold choose_try.
  assert (Htext : (route c ++ " " ++ answered)%string
                  = String "/"%char (tail ++ " " ++ answered))
    by (rewrite Hroute; reflexivity).
  assert (Hstrip : strip (route c ++ " " ++ answered) = (route c ++ " " ++ answered)%string).
  { rewrite Htext. apply (strip_kept _ _ (route c ++ " ") answered);
      try assumption; [reflexivity|].
    now rewrite <- Htext, append_assoc. }
  rewrite Hstrip.
  assert (Hfields : fields is_space (route c ++ " " ++ answered) = [route c; answered]).
  { unfold fields. change (" " ++ answered)%string with (String " "%char answered).
    rewrite split_by_at by (assumption || reflexivity).
    rewrite split_by_unbroken by assumption. simpl.
    rewrite Hroute at 1. cbn [is_empty negb].
    destruct answered; [contradiction|reflexivity]. }
  rewrite Hfields.
  assert (Hr : strip (route c) = route c).
  { rewrite Hroute. apply (strip_kept _ _ EmptyString (String "/"%char tail));
      try reflexivity; [discriminate|now rewrite <- Hroute]. }
  rewrite Hr, Hanswer, Hparse, Hvalid.
  assert (Hex : existsb (fun c0 => (String.eqb (route c0) (route c)
                                    && String.eqb (lower (method c0)) (lower (method c)))%bool)
                        candidates = true).
  { apply existsb_exists. exists c. split; [assumption|].
    now rewrite !String.eqb_refl. }
  rewrite Hex, Hroute. reflexivity.
Qed.

Lemma choose_confirms_listed_answer_witness :
  all_chars is_ascii "/orders/{id}" = true
  /\ all_chars (fun ch => negb (is_space ch)) "/orders/{id}" = true
  /\ choose "cancel my order" shop_ranking ("/orders/{id}" ++ " " ++ "Delete")
     = Ok (chosen "/orders/{id}" "delete").
Proof.
  split; [reflexivity|]. split; [reflexivity|].
  apply (choose_confirms_listed_answer "cancel my order" shop_ranking
           (shop_candidate "/orders/{id}" "delete" "Delete order" 3)
           "orders/{id}" "Delete"); try reflexivity.
  right. right. now left.
Defined.

(** X11. When the first token of a non-empty ASCII answer that does not
    start with NONE is the route of no candidate, [choose] returns the
    first of the candidates with the highest score: nothing before it in
    the list scores as high and nothing after it scores higher.  An
    operation the model made up is never returned. *)
Theorem choose_falls_back_to_first_maximum (question : string)
  (candidates : list Candidate) (text : string) :
  candidates <> [] ->
  all_chars is_ascii text = true ->
  is_empty text = false ->
  startswith (upper text) "NONE" = false ->
  (forall c part0 rest,
      In c candidates -> fields is_space (strip text) = part0 :: rest ->
      route c <> strip part0) ->
  exists before best after,
    candidates = before ++ best :: after
    /\ (forall c, In c before -> score_of c < score_of best)
    /\ (forall c, In c after -> score_of c <= score_of best)
    /\ choose question candidates text = Ok (chosen (route best) (method best)).
Proof.
  intros Hne _ Hempty Hnone Hforeign.
  destruct candidates as [|c0 cs]; [contradiction|].
  destruct (max_from_first cs c0) as (before & after & Hsplit & Hbefore & Hafter).
  exists before, (max_from c0 cs), after.
  split; [assumption|]. split; [assumption|]. split; [assumption|].
  rewrite choose_is_try by reflexivity.
  unfold choose_try. rewrite Hempty, Hnone.
  destruct (fields is_space (strip text)) as [|part0 [|part1 rest]] eqn:Hparts;
    try reflexivity.
  destruct (mem _ VALID_METHODS); [|reflexivity].
  match goal with |- context [existsb ?f (c0 :: cs)] =>
    destruct (existsb f (c0 :: cs)) eqn:Hex end; [|reflexivity].
  apply existsb_exists in Hex. destruct Hex as (c & Hc & Hmatch).
  apply andb_true_iff in Hmatch. destruct Hmatch as [Hr _].
  apply String.eqb_eq in Hr. exfalso.
  now apply (Hforeign c part0 (part1 :: rest) Hc eq_refl).
Qed.

Lemma choose_falls_back_to_first_maximum_witness :
  all_chars is_ascii "/orders/{id} DELETE" = true
  /\ exists before best after,
       [health_candidate 5; health_candidate 7; health_candidate 7]
       = before ++ best :: after
       /\ (forall c, In c before -> score_of c < score_of best)
       /\ (forall c, In c after -> score_of c <= score_of best)
       /\ choose "cancel my order"
            [health_candidate 5; health_candidate 7; health_candidate 7]
            "/orders/{id} DELETE"
          = Ok (chosen (route best) (method best)).
Proof.
  split; [reflexivity|].
  apply (choose_falls_back_to_first_maximum "cancel my order"
           [health_candidate 5; health_candidate 7; health_candidate 7]
           "/orders/{id} DELETE"); try reflexivity; try discriminate.
  intros c part0 rest Hc [= <- _] Hr.
  destruct Hc as [<-|[<-|[<-|[]]]]; discriminate Hr.
Defined.

(** ** Reference resolution and operation lookup *)

Section Resolution.








(** Lookup through a path [p] that no earlier path is equivalent to. *)
Lemma find_operation_via (spec : json) (route method p : string) (e : json)
  (before after : list (string * json)) :
  well_formed_spec spec = true ->
  paths_of spec = before ++ (p, e) :: after ->
  (forall q, In q (map fst before) -> rstrip_slash q <> rstrip_slash route) ->
  rstrip_slash p = rstrip_slash route ->
  (In route (map fst (paths_of spec)) -> route = p) ->
  _find_operation spec route method
  = if truthy e then get e (lower method) else Ok JNull.
Proof.
  intros Hwf Hsplit Hbefore Hp Hkey.
  assert (Hfresh : ~ In p (map fst before)).
  { intros Hin. now apply (Hbefore p). }
  rewrite (find_operation_unfold false) by assumption. cbv zeta.
  unfold get at 1. cbn [get_or bind].
  assert (Hloop : first_equivalent (JObj (paths_of spec)) route
                    (map fst (paths_of spec)) JNull = Ok e).
  { rewrite Hsplit at 2. rewrite map_app. cbn [map fst].
    rewrite first_equivalent_first by assumption.
    unfold get. cbn [get_or]. now rewrite Hsplit, lookup_first. }
  destruct (lookup (paths_of spec) route) as [e'|] eqn:Hl.
  - assert (Hroute : route = p).
    { apply Hkey. apply lookup_In in Hl. now apply (in_map fst) in Hl. }
    subst route. rewrite Hsplit, lookup_first in Hl by assumption.
    injection Hl as <-. destruct (truthy e) eqn:Ht; cbn [negb bind].
    + now rewrite Ht.
    + rewrite Hsplit at 2. rewrite map_app. cbn [map fst].
      rewrite first_equivalent_first by assumption.
      unfold get at 1. cbn [get_or]. rewrite Hsplit, lookup_first by assumption.
      cbn [bind]. now rewrite Ht.
  - cbn [truthy negb]. rewrite Hloop. cbn [bind]. now destruct (truthy e).
Qed.

Lemma first_equivalent_origin (pis : list (string * json)) (route : string)
  (ks : list string) (entry e : json) :
  first_equivalent (JObj pis) route ks entry = Ok e ->
  e = entry
  \/ exists p, rstrip_slash p = rstrip_slash route
               /\ e = match lookup pis p with Some x => x | None => JNull end.
Proof.
  induction ks as [|k ks IH]; simpl.
  - intros [= <-]. now left.
  - destruct (String.eqb_spec (rstrip_slash k) (rstrip_slash route)) as [Heq|_];
      [|assumption].
    unfold get. cbn [get_or]. intros [= <-]. right. eauto.
Qed.

Lemma get_ok_dict (v : json) (k : string) (dflt x : json) :
  get_or v k dflt = Ok x ->
  exists d, v = JObj d /\ x = match lookup d k with Some y => y | None => dflt end.
Proof.
  destruct v; try discriminate. simpl. intros [= <-]. eauto.
Qed.

(** The paths mapping behind a lookup that did not raise. *)
Lemma paths_value (top : list (string * json)) (route : string) (entry : json) :
  get (py_or (match lookup top "paths" with Some x => x | None => JObj [] end)
             (JObj [])) route = Ok entry ->
  py_or (match lookup top "paths" with Some x => x | None => JObj [] end) (JObj [])
  = JObj (paths_of (JObj top)).
Proof.
  unfold paths_of, py_or.
  destruct (lookup top "paths") as [[| |z|r|s|l|pis]|]; cbn [truthy];
    try reflexivity; try discriminate.
  - destruct b; [discriminate|reflexivity].
  - destruct (negb (z =? 0)); [discriminate|reflexivity].
  - destruct (negb (float_is_zero r)); [discriminate|reflexivity].
  - destruct (negb (is_empty s)); [discriminate|reflexivity].
  - destruct (negb (is_nil l)); [discriminate|reflexivity].
  - destruct pis; reflexivity.
Qed.

End Resolution.



(** X13. When no two paths of a well-formed document differ only by
    trailing slashes, lookup does not depend on the trailing slashes of
    the route: every route that equals a path of the document up to
    trailing slashes finds what that path itself finds. *)
Theorem find_operation_trailing_slashes (spec : json) (path route method : string) :
  well_formed_spec spec = true ->
  (forall p q, In p (map fst (paths_of spec)) -> In q (map fst (paths_of spec)) ->
               rstrip_slash p = rstrip_slash q -> p = q) ->
  In path (map fst (paths_of spec)) ->
  rstrip_slash route = rstrip_slash path ->
  _find_operation spec route method = _find_operation spec path method.
Proof.
  intros Hwf Hinj Hpath Hroute.
  destruct (first_occurrence _ _ Hpath) as (before & e & after & Hsplit & Hfresh).
  assert (Hbefore : forall r q, rstrip_slash r = rstrip_slash path ->
                                In q (map fst before) ->
                                rstrip_slash q <> rstrip_slash r).
  { intros r q Hr Hq Heq. apply Hfresh.
    replace path with q; [assumption|].
    apply Hinj; [rewrite Hsplit, map_app; apply in_or_app; now left|assumption|congruence]. }
  rewrite (find_operation_via spec route method path e before after Hwf Hsplit
             (fun q => Hbefore route q Hroute) (eq_sym Hroute)
             (fun Hin => Hinj route path Hin Hpath Hroute)).
  rewrite (find_operation_via spec path method path e before after Hwf Hsplit
             (fun q => Hbefore path q eq_refl) eq_refl (fun _ => eq_refl)).
  reflexivity.
Qed.

Lemma find_operation_trailing_slashes_witness :
  _find_operation health_spec "/health//" "GET"
  = _find_operation health_spec "/health" "GET".
Proof.
  apply (find_operation_trailing_slashes health_spec "/health" "/health//" "GET");
    try reflexivity.
  - intros p q [<-|[]] [<-|[]] _. reflexivity.
  - now left.
Defined.

(** X14. What lookup finds is in the document: a truthy result of
    [_find_operation] is stored in the entry of a path that equals the
    route up to trailing slashes, under the lower-cased method, a key
    that lower-casing leaves unchanged.  An operation whose method key
    is not lower-case is therefore never found under that key. *)
Theorem find_operation_sound (spec : json) (route method : string) (op : json) :
  _find_operation spec route method = Ok op ->
  truthy op = true ->
  exists p ops key,
    In (p, JObj ops) (paths_of spec)
    /\ rstrip_slash p = rstrip_slash route
    /\ key = lower method
    /\ lower key = key
    /\ lookup ops key = Some op.
Proof.
  unfold _find_operation. intros H Ht.
  apply bind_ok in H. destruct H as (paths0 & Hpaths0 & H).
  apply get_ok_dict in Hpaths0. destruct Hpaths0 as (top & -> & ->).
  apply bind_ok in H. destruct H as (entry0 & Hentry0 & H).
  cbv beta zeta in Hentry0, H.
  assert (Hpv := paths_value _ _ _ Hentry0). rewrite Hpv in Hentry0, H.
  unfold get in Hentry0. apply get_ok_dict in Hentry0. destruct Hentry0 as (pis & Hpis & ->).
  injection Hpis as <-.
  apply bind_ok in H. destruct H as (entry & Hentry & H).
  destruct (truthy entry) eqn:Hte; cbn [negb] in H;
    [|injection H as <-; discriminate].
  unfold get in H. apply get_ok_dict in H. destruct H as (ops & -> & Hopv).
  assert (Hop : lookup ops (lower method) = Some op).
  { destruct (lookup ops (lower method)); subst op; [reflexivity|discriminate]. }
  assert (Hfound : exists p, rstrip_slash p = rstrip_slash route
                             /\ lookup (paths_of (JObj top)) p = Some (JObj ops)).
  { change (match lookup top "paths" with
            | Some (JObj path_items) => path_items
            | _ => []
            end) with (paths_of (JObj top)) in Hentry.
    assert (Hloop : forall e0,
               first_equivalent (JObj (paths_of (JObj top))) route
                 (map fst (paths_of (JObj top))) e0 = Ok (JObj ops) ->
               truthy e0 = false ->
               exists p, rstrip_slash p = rstrip_slash route
                         /\ lookup (paths_of (JObj top)) p = Some (JObj ops)).
    { intros e0 Hfirst Hfalsy. apply first_equivalent_origin in Hfirst.
      destruct Hfirst as [Heq|(p & Hp & Heq)]; [subst e0; congruence|].
      exists p. split; [assumption|].
      destruct (lookup (paths_of (JObj top)) p); [congruence|discriminate]. }
    destruct (lookup (paths_of (JObj top)) route) as [e0|] eqn:Hl0.
    - destruct (truthy e0) eqn:Ht0; cbn [negb keys bind] in Hentry.
      + injection Hentry as ->. exists route. auto.
      + now apply (Hloop e0).
    - cbn [truthy negb keys bind] in Hentry. now apply (Hloop JNull). }
  destruct Hfound as (p & Hp & Hl). exists p, ops, (lower method).
  split; [now apply lookup_In|]. split; [assumption|]. split; [reflexivity|].
  split; [apply lower_lower|assumption].
Qed.

Lemma find_operation_sound_witness :
  exists p ops key,
    In (p, JObj ops) (paths_of health_spec)
    /\ rstrip_slash p = rstrip_slash "/health/"
    /\ key = lower "GET"
    /\ lower key = key
    /\ lookup ops key = Some (JObj [("summary", JStr "Health check")]).
Proof.
  apply (find_operation_sound health_spec "/health/" "GET"
           (JObj [("summary", JStr "Health check")])); reflexivity.
Defined.

(** ** Sample generator *)

Section Samples.

Lemma bind_raise {A B : Type} (m : result A) (k : A -> result B) (e : exn) :
  bind m k = Raise e -> m = Raise e \/ exists a, m = Ok a /\ k a = Raise e.
Proof.
  destruct m as [a|e']; simpl; [eauto|]. intros [= ->]. now left.
Qed.

Lemma foldM_raise {A S : Type} (body : S -> A -> result S) (l : list A) (e : exn) :
  forall s, foldM body l s = Raise e -> exists x s', In x l /\ body s' x = Raise e.
Proof.
  induction l as [|x l IH]; intros s; simpl; [discriminate|].
  intros H. apply bind_raise in H. destruct H as [H|(s' & _ & H)].
  - exists x, s. auto.
  - destruct (IH _ H) as (y & s'' & Hy & Hb). exists y, s''. auto.
Qed.

Lemma sample_fuel_raises (n : nat) :
  forall v e, sample_fuel n v = Raise e -> e = AttributeError \/ e = RecursionError.
Proof.
  induction n as [|n IH]; intros v e; [simpl; intros [= <-]; now right|].
  destruct v as [| | | | | |d]; try discriminate.
  cbn [sample_fuel is_dict negb]. unfold get. cbn [get_or bind].
  match goal with |- (if ?c then _ else _) = _ -> _ => destruct c end.
  - intros H. apply bind_raise in H. destruct H as [H|(kvs & _ & H)].
    { destruct (py_or _ _); try discriminate; injection H as <-; now left. }
    apply bind_raise in H. destruct H as [H|(out & _ & H)]; [|discriminate].
    apply foldM_raise in H. destruct H as ([k v] & out & _ & H).
    apply bind_raise in H. destruct H as [H|(s & _ & H)]; [|discriminate].
    destruct (is_dict v); [|discriminate]. now apply (IH v).
  - destruct (str_eq _ "array").
    + intros H. apply bind_raise in H. destruct H as [H|(s & _ & H)]; [|discriminate].
      exact (IH _ _ H).
    + repeat match goal with |- (if ?c then _ else _) = _ -> _ => destruct c end;
        discriminate.
Qed.

Lemma dict_set_fresh (d : list (string * json)) (k : string) (v : json) :
  ~ In k (map fst d) -> dict_set d k v = d ++ [(k, v)].
Proof.
  induction d as [|[k' v'] d IH]; simpl; intros H; [reflexivity|].
  destruct (String.eqb_spec k' k) as [->|_]; [exfalso; auto|].
  rewrite IH; auto.
Qed.

(** A loop that stores one computed value per key, over distinct keys
    none of which is stored yet. *)
Lemma foldM_dict_set (g : json -> result json) (kvs : list (string * json)) :
  NoDup (map fst kvs) ->
  forall acc out,
    (forall k, In k (map fst kvs) -> ~ In k (map fst acc)) ->
    foldM (fun out (kv : string * json) =>
             let '(k, v) := kv in s <- g v ;; Ok (dict_set out k s)) kvs acc = Ok out ->
    exists added,
      out = acc ++ added
      /\ Forall2 (fun kv ks : string * json =>
                    fst ks = fst kv /\ g (snd kv) = Ok (snd ks)) kvs added.
Proof.
  induction kvs as [|[k v] kvs IH]; intros Hnodup acc out Hfresh; simpl.
  - intros [= <-]. exists []. split; [now rewrite app_nil_r|constructor].
  - intros H. apply bind_ok in H. destruct H as (acc' & Hstep & H).
    apply bind_ok in Hstep. destruct Hstep as (s & Hs & [= <-]).
    simpl in Hnodup. inversion Hnodup as [|? ? Hk Hrest]; subst.
    rewrite dict_set_fresh in H by (apply Hfresh; now left).
    apply IH in H; [|assumption|].
    + destruct H as (added & -> & Hall). exists ((k, s) :: added).
      split; [now rewrite <- app_assoc|]. constructor; auto.
    + intros k' Hk'. rewrite map_app, in_app_iff. simpl.
      intros [Hin|[<-|[]]]; [|contradiction].
      apply (Hfresh k'); [now right|assumption].
Qed.

Lemma Forall2_impl_In {A B : Type} (P Q : A -> B -> Prop) (l : list A) (l' : list B) :
  Forall2 P l l' ->
  (forall x y, In x l -> P x y -> Q x y) ->
  Forall2 Q l l'.
Proof.
  induction 1 as [|x y l l' Hxy _ IH]; intros Himpl; constructor.
  - apply Himpl; [now left|assumption].
  - apply IH. intros x' y' Hin. apply Himpl. now right.
Qed.

Lemma lookup_has_key (d : list (string * json)) (k : string) (v : json) :
  lookup d k = Some v -> has_key (JObj d) k = true.
Proof.
  intros H. apply lookup_In in H. simpl. apply existsb_exists.
  exists (k, v). split; [assumption|]. apply String.eqb_refl.
Qed.

End Samples.

(** X15. With [n] frames left, [sample_from_schema] returns or raises
    one of two exceptions: [AttributeError], or [RecursionError], the
    latter only on a schema nested at least [n] deep.  It raises nothing
    else. *)
Theorem sample_from_schema_exceptions (n : nat) (schema : json) (e : exn) :
  sample_fuel n schema = Raise e ->
  e = AttributeError \/ (e = RecursionError /\ (n <= depth schema)%nat).
Proof.
  intros H. destruct (sample_fuel_raises _ _ _ H) as [->| ->]; [now left|].
  right. split; [reflexivity|].
  destruct (Nat.le_gt_cases n (depth schema)) as [Hle|Hlt]; [assumption|].
  now apply sample_fuel_enough in H.
Qed.

Lemma sample_from_schema_exceptions_witness :
  sample_fuel 3 nested_arrays = Raise RecursionError
  /\ sample_fuel 4 nested_arrays = Ok (JArr [JArr [JArr [JNull]]])
  /\ (RecursionError = AttributeError
      \/ (RecursionError = RecursionError /\ (3 <= depth nested_arrays)%nat)).
Proof.
  split; [reflexivity|]. split; [reflexivity|].
  apply (sample_from_schema_exceptions 3 nested_arrays RecursionError).
  reflexivity.
Defined.

(** X16. The sample of an object schema (typed "object", or untyped
    with properties) whose properties form a dict with distinct keys has
    one entry per property, in declaration order, under the same key:
    the sample of the property's schema when that is a dict, [None]
    otherwise. *)
Theorem sample_object_properties (d props : list (string * json)) (v : json) :
  lookup d "type" = Some (JStr "object") \/ lookup d "type" = None ->
  lookup d "properties" = Some (JObj props) ->
  NoDup (map fst props) ->
  sample_from_schema (JObj d) = Ok v ->
  exists out,
    v = JObj out
    /\ Forall2 (fun kv ks : string * json =>
                  fst ks = fst kv
                  /\ if is_dict (snd kv)
                     then sample_from_schema (snd kv) = Ok (snd ks)
                     else snd ks = JNull)
               props out.
Proof.
  intros Htype Hprops Hnodup. unfold sample_from_schema at 1.
  cbn [sample_fuel is_dict negb]. unfold get. cbn [get_or bind].
  assert (Hobject : (str_eq match lookup d "type" with Some x => x | None => JNull end
                            "object"
                     || negb (truthy match lookup d "type" with
                                     | Some x => x | None => JNull end)
                        && has_key (JObj d) "properties")%bool = true).
  { destruct Htype as [->| ->]; [reflexivity|].
    now rewrite (lookup_has_key _ _ _ Hprops). }
  rewrite Hobject, Hprops.
  assert (Hitems : items (py_or (JObj props) (JObj [])) = Ok props)
    by (destruct props; reflexivity).
  rewrite Hitems. cbn [bind]. intros H.
  apply bind_ok in H. destruct H as (out & Hfold & [= <-]).
  exists out. split; [reflexivity|].
  set (g := fun pv : json =>
              if is_dict pv then sample_fuel (depth (JObj d)) pv else Ok JNull).
  assert (Hg : foldM (fun out (kv : string * json) =>
                        let '(k, pv) := kv in s <- g pv ;; Ok (dict_set out k s))
                     props [] = Ok out).
  { rewrite <- Hfold. apply foldM_ext. intros [k pv] _ s. reflexivity. }
  apply foldM_dict_set in Hg; [|assumption|intros k _ []].
  destruct Hg as (added & -> & Hall). simpl.
  assert (Hdepth : forall kv, In kv props -> (S (depth (snd kv)) < depth (JObj d))%nat).
  { intros [k pv] Hin. apply lookup_In, depth_field in Hprops.
    apply depth_field in Hin. simpl snd. lia. }
  apply (Forall2_impl_In _ _ _ _ Hall).
  intros [k pv] [k' s] Hin [Hk Hs]. split; [assumption|].
  unfold g in Hs. cbn [snd] in Hs |- *.
  destruct (is_dict pv); [|now injection Hs].
  unfold sample_from_schema. rewrite <- Hs.
  specialize (Hdepth _ Hin). cbn [snd] in Hdepth.
  apply sample_fuel_stable; lia.
Qed.

Lemma sample_object_properties_witness :
  exists out,
    JObj [("name", JStr "string_example"); ("tags", JNull)] = JObj out
    /\ Forall2 (fun kv ks : string * json =>
                  fst ks = fst kv
                  /\ if is_dict (snd kv)
                     then sample_from_schema (snd kv) = Ok (snd ks)
                     else snd ks = JNull)
               [("name", JObj [("type", JStr "string")]); ("tags", JStr "list")] out.
Proof.
  apply (sample_object_properties
           [("properties", JObj [("name", JObj [("type", JStr "string")]);
                                 ("tags", JStr "list")])]
           [("name", JObj [("type", JStr "string")]); ("tags", JStr "list")]).
  - now right.
  - reflexivity.
  - repeat constructor; simpl; intuition discriminate.
  - reflexivity.
Defined.

(** X17. A schema whose type is one of the six the generator knows never
    samples to [None]: when [sample_from_schema] returns on it, the
    value is an object, a list, a string, a number or a boolean. *)
Theorem sample_of_known_type (d : list (string * json)) (t : string) (v : json) :
  lookup d "type" = Some (JStr t) ->
  In t ["object"; "array"; "string"; "integer"; "number"; "boolean"] ->
  sample_from_schema (JObj d) = Ok v ->
  v <> JNull.
Proof.
  intros Htype Ht. unfold sample_from_schema.
  cbn [sample_fuel is_dict negb]. unfold get. cbn [get_or bind]. rewrite Htype.
  destruct Ht as [<-|[<-|[<-|[<-|[<-|[<-|[]]]]]]]; cbn [str_eq String.eqb Ascii.eqb
    Bool.eqb orb andb negb truthy is_empty].
  - intros H. repeat (apply bind_ok in H; destruct H as (? & _ & H)).
    injection H as <-. discriminate.
  - intros H. repeat (apply bind_ok in H; destruct H as (? & _ & H)).
    injection H as <-. discriminate.
  - destruct (str_eq _ "date-time"); intros [= <-]; discriminate.
  - intros [= <-]. discriminate.
  - intros [= <-]. discriminate.
  - intros [= <-]. discriminate.
Qed.

Lemma sample_of_known_type_witness :
  JArr [JNull] <> JNull.
Proof.
  apply (sample_of_known_type [("type", JStr "array")] "array" (JArr [JNull]));
    [reflexivity|simpl; tauto|reflexivity].
Defined.

(** ** Renderers *)

Section Rendering.

Variable json_dumps : json -> string.

(** The loops of [render_sample] and [render_curl] agree on the media
    type they stop at, as long as the sample found is not [None]. *)
Lemma first_sample_body (spec : json) (media : list (string * json))
  (mime : string) (sample ref : json) (curl : string) :
  first_sample spec media
  = Ok (Some (JObj [("content_type", JStr mime); ("sample", sample);
                    ("schema_ref", ref)])) ->
  sample <> JNull ->
  add_body json_dumps spec media curl = Ok (curl ++ body_args json_dumps mime sample)%string.
Proof.
  intros H Hsample. induction media as [|[mime' c] media IH]; simpl in H |- *;
    [discriminate|].
  unfold media_sample.
  apply bind_ok in H. destruct H as (sch & -> & H). cbn [bind].
  apply bind_ok in H. destruct H as (r & -> & H). cbn [bind].
  destruct (truthy r).
  - apply bind_ok in H. destruct H as (schema_obj & -> & H). cbn [bind].
    destruct (truthy schema_obj); [|cbn [is_none negb]; now apply IH].
    apply bind_ok in H. destruct H as (s & -> & [= <- <- _]). cbn [bind].
    destruct s; try reflexivity. congruence.
  - apply bind_ok in H. destruct H as (s & -> & [= <- <- _]). cbn [bind].
    destruct s; try reflexivity. congruence.
Qed.

Lemma first_sample_none_body (spec : json) (media : list (string * json))
  (curl : string) :
  first_sample spec media = Ok None ->
  add_body json_dumps spec media curl = Ok curl.
Proof.
  intros H. induction media as [|[mime' c] media IH]; simpl in H |- *;
    [reflexivity|].
  unfold media_sample.
  apply bind_ok in H. destruct H as (sch & -> & H). cbn [bind].
  apply bind_ok in H. destruct H as (r & -> & H). cbn [bind].
  destruct (truthy r).
  - apply bind_ok in H. destruct H as (schema_obj & -> & H). cbn [bind].
    destruct (truthy schema_obj); [|cbn [is_none negb]; now apply IH].
    apply bind_ok in H. destruct H as (s & _ & [=]).
  - apply bind_ok in H. destruct H as (s & _ & [=]).
Qed.

(** [render_curl] once its loop has run. *)
Lemma render_curl_after_body (spec : json) (route method : string)
  (op rb content : json) (curl : string) :
  _find_operation spec route method = Ok op ->
  truthy op = true ->
  get op "requestBody" = Ok rb ->
  get (py_or rb (JObj [])) "content" = Ok content ->
  add_body json_dumps spec (items_if_dict (py_or content (JObj [])))
           (curl_base method route) = Ok curl ->
  render_curl json_dumps spec route method
  = Ok (JObj [("curl", JStr (curl ++ curl_auth spec op))]).
Proof.
  intros Hop Ht Hrb Hcontent Hbody.
  assert (Hspec : exists top, spec = JObj top).
  { unfold _find_operation in Hop. apply bind_ok in Hop.
    destruct Hop as (paths0 & Hpaths0 & _).
    apply get_ok_dict in Hpaths0. destruct Hpaths0 as (top & -> & _). eauto. }
  destruct Hspec as [top ->].
  assert (Hd : exists d, op = JObj d).
  { unfold get in Hrb. apply get_ok_dict in Hrb. destruct Hrb as (d & -> & _). eauto. }
  destruct Hd as [d ->].
  unfold render_curl. rewrite Hop. cbn [bind]. rewrite Ht. cbn [negb].
  rewrite Hrb. cbn [bind]. rewrite Hcontent. cbn [bind].
  fold (curl_base method route). rewrite Hbody. cbn [bind].
  unfold get. cbn [get_or bind]. unfold curl_auth, security_declared, field.
  destruct (truthy match lookup d "security" with Some x => x | None => JNull end)
    eqn:Hsec; cbn [bind orb]; [now rewrite Hsec|].
  unfold py_or.
  destruct (truthy match lookup top "security" with Some x => x | None => JNull end)
    eqn:Hglobal; [now rewrite Hglobal|].
  cbn [truthy is_nil negb]. now rewrite append_empty.
Qed.

(** What [render_sample] went through when it did not answer "operation
    not found". *)
Lemma render_sample_found (spec : json) (route method : string) (r : json) :
  render_sample spec route method = Ok r ->
  r <> not_found ->
  exists op rb content found,
    _find_operation spec route method = Ok op
    /\ truthy op = true
    /\ get op "requestBody" = Ok rb
    /\ get (py_or rb (JObj [])) "content" = Ok content
    /\ first_sample spec (items_if_dict (py_or content (JObj []))) = Ok found
    /\ r = match found with Some x => x | None => no_body end.
Proof.
  unfold render_sample. intros H Hr.
  apply bind_ok in H. destruct H as (op & Hop & H).
  destruct (truthy op) eqn:Ht; cbn [negb] in H; [|injection H as <-; contradiction].
  apply bind_ok in H. destruct H as (rb & Hrb & H).
  apply bind_ok in H. destruct H as (content & Hcontent & H).
  apply bind_ok in H. destruct H as (found & Hfound & H).
  exists op, rb, content, found. repeat (split; [assumption|]).
  destruct found; now injection H.
Qed.

Lemma dict_set_In (d : list (string * json)) (k k' : string) (v v' : json) :
  In (k', v') (dict_set d k v) -> (k', v') = (k, v) \/ In (k', v') d.
Proof.
  induction d as [|[k0 v0] d IH]; simpl.
  - intros [H|[]]. now left.
  - destruct (String.eqb k0 k); simpl.
    + intros [H|H]; [now left|right; now right].
    + intros [H|H]; [right; now left|].
      destruct (IH H); [now left|right; now right].
Qed.

Lemma foldM_invariant {A S : Type} (P : S -> Prop) (body : S -> A -> result S)
  (l : list A) :
  (forall x s s', In x l -> P s -> body s x = Ok s' -> P s') ->
  forall s out, P s -> foldM body l s = Ok out -> P out.
Proof.
  induction l as [|x l IH]; intros Hstep s out Hs; simpl.
  - now intros [= <-].
  - intros H. apply bind_ok in H. destruct H as (s' & Hb & H).
    apply (IH (fun y a b Hy => Hstep y a b (or_intror Hy)) s'); [|assumption].
    apply (Hstep x s); auto. now left.
Qed.

Lemma ref_name_falsy (r : json) : truthy r = false -> ref_name r = None.
Proof.
  destruct r; try reflexivity. destruct s; [reflexivity|discriminate].
Qed.

Lemma schema_ref_of_raw (x : json) : schema_ref_of x = ref_name (raw_ref x).
Proof.
  unfold schema_ref_of, raw_ref. now destruct (field x "schema").
Qed.

Lemma collect_step_exact (refs : list json) (x : json) (p : json -> bool) :
  dict_of (fun d => opt d "schema" p) x = true ->
  (forall s, p s = true -> is_dict s = true) ->
  (sch <- get x "schema" ;;
   r <- get (py_or sch (JObj [])) "$ref" ;;
   Ok (if truthy r then refs ++ [r] else refs))
  = Ok (refs ++ filter truthy [raw_ref x]).
Proof.
  intros Hx Hp. destruct x as [| | | | | |d]; try discriminate. simpl in Hx.
  unfold get at 1. cbn [get_or bind]. unfold raw_ref, field.
  destruct (opt_cases _ _ _ Hx) as [->|(v & -> & Hv)].
  - simpl. now rewrite app_nil_r.
  - destruct (is_dict_inv _ (Hp _ Hv)) as [sd ->].
    rewrite py_or_empty_dict_ref. cbn [bind field filter].
    destruct (truthy _); [reflexivity|now rewrite app_nil_r].
Qed.

Lemma flat_map_filter_singleton {A B : Type} (f : A -> B) (p : B -> bool)
  (l : list A) :
  flat_map (fun x => filter p [f x]) l = filter p (map f l).
Proof.
  induction l as [|x l IH]; [reflexivity|].
  cbn [flat_map map]. rewrite IH. simpl. now destruct (p (f x)).
Qed.

Lemma collect_schema_refs_exact (strict : bool) (op : json) :
  wf_operation strict op = true ->
  _collect_schema_refs op
  = Ok (filter truthy (map raw_ref (map snd (media_of op) ++ params_of op))).
Proof.
  intros Hwf.
  destruct (wf_operation_inv _ _ Hwf) as (d & -> & _ & _ & _ & Hrb & Hps).
  destruct (resolver_media _ _ Hrb) as (content & Hcontent & Hmedia & Hwm).
  destruct (params_of_operation _ Hps) as (Hparams & Hwp).
  unfold _collect_schema_refs. unfold get at 1. cbn [get_or bind].
  rewrite Hcontent. cbn [bind]. rewrite Hmedia.
  rewrite (foldM_collect _ (fun mc => filter truthy [raw_ref (snd mc)])).
  2:{ intros mc Hin refs. rewrite Forall_forall in Hwm.
      apply (collect_step_exact refs (snd mc) (wf_schema strict)); [now apply Hwm|].
      apply wf_schema_is_dict. }
  cbn [bind app]. unfold get at 1. cbn [get_or bind].
  assert (Hiter : iter (py_or (match lookup d "parameters" with
                               | Some x => x | None => JNull end) (JArr []))
                  = Ok (params_of (JObj d))).
  { unfold params_of, field. unfold opt in Hps.
    destruct (lookup d "parameters") as [ps|]; [|reflexivity].
    destruct ps as [| | | | |l|]; try discriminate. destruct l; reflexivity. }
  rewrite Hiter. cbn [bind].
  rewrite (foldM_collect _ (fun p => filter truthy [raw_ref p])).
  2:{ intros p' Hin refs. rewrite Forall_forall in Hwp.
      apply (collect_step_exact refs p' is_dict); [now apply Hwp|auto]. }
  f_equal. rewrite map_app, filter_app, map_map.
  now rewrite (flat_map_filter_singleton (fun mc => raw_ref (snd mc))),
              (flat_map_filter_singleton raw_ref).
Qed.

Lemma In_lookup_NoDup (d : list (string * json)) (k : string) (v : json) :
  NoDup (map fst d) -> In (k, v) d -> lookup d k = Some v.
Proof.
  induction d as [|[k' v'] d IH]; simpl; intros Hnodup Hin; [contradiction|].
  inversion Hnodup as [|? ? Hk Hrest]; subst.
  destruct Hin as [[= -> ->]|Hin]; [now rewrite String.eqb_refl|].
  destruct (String.eqb_spec k' k) as [->|_]; [|auto].
  exfalso. apply Hk. now apply (in_map fst) in Hin.
Qed.

(** An operation of a well-formed document, where it sits. *)
Lemma operation_inv (spec : json) (route method : string) (info : json) :
  well_formed_spec spec = true ->
  In (route, method, info) (operations spec) ->
  exists ops,
    In (route, JObj ops) (paths_of spec)
    /\ In (method, info) ops
    /\ wf_operation false info = true.
Proof.
  intros Hwf Hop. destruct (wf_spec_inv _ _ Hwf) as (top & -> & Hpaths & _).
  destruct (paths_of_spec _ _ Hpaths) as [_ Hitems].
  unfold operations in Hop. unfold paths_of in Hitems |- *.
  destruct (lookup top "paths") as [[| | | | | |pis]|]; try contradiction.
  destruct Hitems as [->|Hvalues]; [contradiction|].
  apply in_flat_map in Hop. destruct Hop as ([route' methods] & Hrm & Hop).
  apply in_map_iff in Hop. destruct Hop as ([m' info'] & [= -> -> ->] & Hmi).
  apply filter_In in Hmi. destruct Hmi as [Hmi Hdict].
  unfold values in Hvalues. rewrite forallb_forall in Hvalues.
  specialize (Hvalues _ Hrm). simpl in Hvalues, Hmi, Hdict.
  destruct methods as [| | | | | |ops]; try discriminate. simpl in Hvalues, Hmi.
  exists ops. split; [assumption|]. split; [assumption|].
  unfold values in Hvalues. rewrite forallb_forall in Hvalues.
  specialize (Hvalues _ Hmi). unfold wf_entry in Hvalues. simpl in Hvalues.
  rewrite Hdict in Hvalues. simpl in Hvalues. now rewrite orb_false_r in Hvalues.
Qed.

End Rendering.

(** X18. When [render_sample] reports a sample that is not [None], the
    command of [render_curl] for the same operation carries exactly that
    sample as its body, under the content type [render_sample] reports. *)
Theorem render_curl_body_is_render_sample (json_dumps : json -> string)
  (spec : json) (route method mime : string) (sample ref : json) :
  render_sample spec route method
  = Ok (JObj [("content_type", JStr mime); ("sample", sample); ("schema_ref", ref)]) ->
  sample <> JNull ->
  exists op,
    _find_operation spec route method = Ok op
    /\ render_curl json_dumps spec route method
       = Ok (JObj [("curl",
                    JStr (curl_base method route
                          ++ body_args json_dumps mime sample
                          ++ curl_auth spec op))]).
Proof.
  intros H Hsample.
  apply render_sample_found in H; [|discriminate].
  destruct H as (op & rb & content & found & Hop & Ht & Hrb & Hcontent & Hfound & Hr).
  exists op. split; [assumption|].
  destruct found as [r|]; [subst r|discriminate].
  rewrite <- append_assoc.
  apply (render_curl_after_body json_dumps spec route method op rb content);
    try assumption.
  now apply first_sample_body with (ref := ref).
Qed.

Lemma render_curl_body_is_render_sample_witness :
  exists op,
    _find_operation orders_spec "/orders" "post" = Ok op
    /\ render_curl Encoder.dumps orders_spec "/orders" "post"
       = Ok (JObj [("curl",
                    JStr (curl_base "post" "/orders"
                          ++ body_args Encoder.dumps "application/json" order_sample
                          ++ curl_auth orders_spec op))]).
Proof.
  apply (render_curl_body_is_render_sample Encoder.dumps orders_spec "/orders" "post"
           "application/json" order_sample (JStr "#/components/schemas/Order"));
    [reflexivity|discriminate].
Defined.

(** X19. When [render_sample] answers "no requestBody schema found",
    the command of [render_curl] has no Content-Type header and no
    body. *)
Theorem render_curl_without_sample (json_dumps : json -> string)
  (spec : json) (route method : string) :
  render_sample spec route method = Ok no_body ->
  exists op,
    _find_operation spec route method = Ok op
    /\ render_curl json_dumps spec route method
       = Ok (JObj [("curl", JStr (curl_base method route ++ curl_auth spec op))]).
Proof.
  intros H.
  apply render_sample_found in H; [|discriminate].
  destruct H as (op & rb & content & found & Hop & Ht & Hrb & Hcontent & Hfound & Hr).
  exists op. split; [assumption|].
  apply (render_curl_after_body json_dumps spec route method op rb content);
    try assumption.
  apply first_sample_none_body.
  destruct found as [r|]; [|assumption].
  apply first_sample_shape in Hfound.
  destruct Hfound as [[=]|(mime & sample & ref & [= ->])]. discriminate Hr.
Qed.

Lemma render_curl_without_sample_witness :
  exists op,
    _find_operation health_spec "/health" "get" = Ok op
    /\ render_curl Encoder.dumps health_spec "/health" "get"
       = Ok (JObj [("curl", JStr (curl_base "get" "/health" ++ curl_auth health_spec op))]).
Proof.
  apply (render_curl_without_sample Encoder.dumps health_spec "/health" "get").
  reflexivity.
Defined.

(** X20. [render_schema] invents no schema: every entry of its
    "schemas" is a truthy value that [_resolve_schema_ref] returns for
    one of the string references listed under "refs", stored under the
    text after the last slash of that reference. *)
Theorem render_schema_entries_resolve (spec : json) (route method : string)
  (schemas : list (string * json)) (refs : list json) :
  render_schema spec route method
  = Ok (JObj [("schemas", JObj schemas); ("refs", JArr refs)]) ->
  forall name sch,
    In (name, sch) schemas ->
    truthy sch = true
    /\ exists r, In (JStr r) refs
                 /\ name = last_segment "/"%char r
                 /\ _resolve_schema_ref spec (JStr r) = Ok sch.
Proof.
  unfold render_schema. intros H.
  apply bind_ok in H. destruct H as (op & _ & H).
  destruct (negb (truthy op)); [discriminate|].
  apply bind_ok in H. destruct H as (refs' & _ & H).
  apply bind_ok in H. destruct H as (schemas' & Hfold & [= <- <-]).
  revert Hfold.
  apply (foldM_invariant
           (fun acc : list (string * json) =>
              forall name sch, In (name, sch) acc ->
                truthy sch = true
                /\ exists r, In (JStr r) refs'
                             /\ name = last_segment "/"%char r
                             /\ _resolve_schema_ref spec (JStr r) = Ok sch));
    [|intros name sch []].
  intros r acc acc' Hr Hacc Hstep name sch Hin.
  apply bind_ok in Hstep. destruct Hstep as (sch' & Hres & Hstep).
  destruct (truthy sch') eqn:Ht; [|injection Hstep as <-; now apply Hacc].
  apply bind_ok in Hstep. destruct Hstep as (name' & Hname & [= <-]).
  apply dict_set_In in Hin. destruct Hin as [[= -> ->]|Hin]; [|now apply Hacc].
  split; [assumption|].
  destruct r as [| | | |r| |]; try discriminate. injection Hname as <-.
  exists r. auto.
Qed.

Lemma render_schema_entries_resolve_witness :
  truthy order_schema = true
  /\ exists r, In (JStr r) [JStr "#/components/schemas/Order"]
               /\ "Order" = last_segment "/"%char r
               /\ _resolve_schema_ref orders_spec (JStr r) = Ok order_schema.
Proof.
  apply (render_schema_entries_resolve orders_spec "/orders" "post"
           [("Order", order_schema)] [JStr "#/components/schemas/Order"] eq_refl
           "Order" order_schema).
  now left.
Defined.

(** X21. Ranker and resolver read the same references: on a well-formed
    operation the [schema_refs] of the candidate the ranker builds are
    the names, without duplicates and in first-seen order, of the
    component references among those [_collect_schema_refs] returns. *)
Theorem candidate_refs_are_collected_refs (tokens : list string)
  (components_schemas : json) (route method : string) (info : json) :
  wf_operation false info = true ->
  exists refs c,
    _collect_schema_refs info = Ok refs
    /\ visit_operation tokens components_schemas route [] (method, info) = Ok [c]
    /\ schema_refs c = unique (flat_map (fun r => olist (ref_name r)) refs).
Proof.
  intros Hwf. do 2 eexists.
  split; [now apply (collect_schema_refs_exact false)|].
  split.
  - rewrite (visit_operation_appends false).
    + unfold candidates_of_entry. cbn [snd fst].
      destruct (wf_operation_inv _ _ Hwf) as (d & -> & _). reflexivity.
    + unfold wf_entry. cbn [snd]. now rewrite Hwf.
  - cbn [schema_refs candidate_for]. f_equal. unfold referenced_names.
    induction (map snd (media_of info) ++ params_of info) as [|x l IH];
      [reflexivity|].
    cbn [flat_map map filter]. rewrite IH, schema_ref_of_raw.
    destruct (truthy (raw_ref x)) eqn:Ht; [reflexivity|].
    now rewrite ref_name_falsy.
Qed.

Lemma candidate_refs_are_collected_refs_witness :
  wf_operation false order_operation = true
  /\ _collect_schema_refs order_operation
     = Ok [JStr "#/components/schemas/Order";
           JStr "#/components/schemas/Customer";
           JStr "#/components/schemas/Order"]
  /\ (exists c,
        visit_operation ["order"] (JObj []) "/orders" [] ("post", order_operation)
        = Ok [c]
        /\ schema_refs c = ["Order"; "Customer"])
  /\ exists refs c,
       _collect_schema_refs order_operation = Ok refs
       /\ visit_operation ["order"] (JObj []) "/orders" [] ("post", order_operation)
          = Ok [c]
       /\ schema_refs c = unique (flat_map (fun r => olist (ref_name r)) refs).
Proof.
  split; [reflexivity|]. split; [reflexivity|].
  split; [eexists; split; reflexivity|].
  apply (candidate_refs_are_collected_refs ["order"] (JObj []) "/orders" "post"
           order_operation).
  reflexivity.
Defined.

(** X22. Every operation of a well-formed document whose keys are
    distinct, as those of a loaded dict are, is found again by its own
    route and method, provided the method key is lower-case and the
    operation is not the empty dict; [render_summary] then reports the
    operation's own summary, description and operationId. *)
Theorem render_summary_of_operation (spec : json) (route method : string)
  (info : json) :
  well_formed_spec spec = true ->
  NoDup (map fst (paths_of spec)) ->
  (forall p ops, In (p, JObj ops) (paths_of spec) -> NoDup (map fst ops)) ->
  In (route, method, info) (operations spec) ->
  lower method = method ->
  truthy info = true ->
  _find_operation spec route method = Ok info
  /\ exists refs,
       _collect_schema_refs info = Ok refs
       /\ render_summary spec route method
          = Ok (JObj [("route", JStr route);
                      ("method", JStr method);
                      ("summary", field info "summary");
                      ("description", field info "description");
                      ("operationId", field info "operationId");
                      ("schema_refs", JArr refs)]).
Proof.
  intros Hwf Hpaths Hops Hop Hlower Ht.
  destruct (operation_inv _ _ _ _ Hwf Hop) as (ops & Hentry & Hmi & Hinfo).
  assert (Hfind : _find_operation spec route method = Ok info).
  { rewrite (find_operation_unfold false) by assumption. cbv zeta.
    unfold get at 1. cbn [get_or bind].
    rewrite (In_lookup_NoDup _ _ _ Hpaths Hentry).
    assert (Hne : truthy (JObj ops) = true) by (destruct ops; [contradiction|reflexivity]).
    rewrite Hne. cbn [negb bind]. rewrite Hne. cbn [negb].
    unfold get. cbn [get_or]. rewrite Hlower.
    now rewrite (In_lookup_NoDup _ _ _ (Hops _ _ Hentry) Hmi). }
  split; [assumption|].
  eexists. split; [now apply (collect_schema_refs_exact false)|].
  unfold render_summary. rewrite Hfind. cbn [bind]. rewrite Ht. cbn [negb].
  rewrite (collect_schema_refs_exact false) by assumption.
  destruct (wf_operation_inv _ _ Hinfo) as (d & -> & _).
  unfold get. cbn [get_or bind field]. now rewrite Hlower.
Qed.

Lemma render_summary_of_operation_witness :
  _find_operation health_spec "/health" "get"
  = Ok (JObj [("summary", JStr "Health check")])
  /\ exists refs,
       _collect_schema_refs (JObj [("summary", JStr "Health check")]) = Ok refs
       /\ render_summary health_spec "/health" "get"
          = Ok (JObj [("route", JStr "/health");
                      ("method", JStr "get");
                      ("summary", field (JObj [("summary", JStr "Health check")]) "summary");
                      ("description", field (JObj [("summary", JStr "Health check")]) "description");
                      ("operationId", field (JObj [("summary", JStr "Health check")]) "operationId");
                      ("schema_refs", JArr refs)]).
Proof.
  apply (render_summary_of_operation health_spec "/health" "get"
           (JObj [("summary", JStr "Health check")])); try reflexivity.
  - repeat constructor. intros [].
  - intros p ops [[= <- <-]|[]]. repeat constructor. intros [].
  - now left.
Defined.

(** ** Index and endpoints *)

Section Serving.

Lemma key_eqb_eq (a b : string * string) : key_eqb a b = true <-> a = b.
Proof.
  destruct a as [a1 a2], b as [b1 b2]. unfold key_eqb. simpl.
  rewrite andb_true_iff, !String.eqb_eq. split; [intros [-> ->]|intros [= -> ->]]; auto.
Qed.

Lemma index_get_set_same (idx : index) (k : string * string) (v : json) :
  index_get (index_set idx k v) k = Some v.
Proof.
  assert (Hk : key_eqb k k = true) by now apply key_eqb_eq.
  induction idx as [|[k' v'] idx IH]; simpl; [now rewrite Hk|].
  destruct (key_eqb k' k) eqn:He; simpl; [now rewrite Hk|now rewrite He].
Qed.

Lemma index_get_set_other (idx : index) (k k' : string * string) (v : json) :
  k' <> k -> index_get (index_set idx k v) k' = index_get idx k'.
Proof.
  intros Hne. induction idx as [|[k0 v0] idx IH]; simpl.
  - destruct (key_eqb k k') eqn:He; [apply key_eqb_eq in He; congruence|reflexivity].
  - destruct (key_eqb k0 k) eqn:He; simpl.
    + apply key_eqb_eq in He. subst k0.
      destruct (key_eqb k k') eqn:He'; [apply key_eqb_eq in He'; congruence|].
      reflexivity.
    + destruct (key_eqb k0 k'); [reflexivity|assumption].
Qed.

Lemma index_set_keys (idx : index) (k k' : string * string) (v : json) :
  In k' (map fst (index_set idx k v)) -> k' = k \/ In k' (map fst idx).
Proof.
  induction idx as [|[k0 v0] idx IH]; simpl.
  - intros [H|[]]. now left.
  - destruct (key_eqb k0 k); simpl.
    + intros [H|H]; [now left|right; now right].
    + intros [H|H]; [right; now left|].
      destruct (IH H); [now left|right; now right].
Qed.

Lemma index_get_key (idx : index) (k : string * string) (v : json) :
  index_get idx k = Some v -> In k (map fst idx).
Proof.
  induction idx as [|[k0 v0] idx IH]; simpl; [discriminate|].
  destruct (key_eqb k0 k) eqn:He; [|right; auto].
  apply key_eqb_eq in He. now left.
Qed.

Lemma stored_set (idx : index) (k k' : string * string) (summary operationId : json)
  (refs : list json) :
  stored idx k' \/ k' = k ->
  stored (index_set idx k (JObj [("summary", summary);
                                 ("operationId", operationId);
                                 ("schema_refs", JArr refs)])) k'.
Proof.
  intros H. destruct (key_eqb k' k) eqn:He.
  - apply key_eqb_eq in He. subst k'. unfold stored.
    rewrite index_get_set_same. eauto.
  - assert (Hne : k' <> k) by (intros ->; now rewrite (proj2 (key_eqb_eq k k)) in He).
    unfold stored. rewrite index_get_set_other by assumption.
    destruct H as [H|H]; [exact H|contradiction].
Qed.

Lemma media_refs_ok (content : json) (refs : list json) :
  wf_indexed_content content = true -> exists refs', media_refs content refs = Ok refs'.
Proof.
  intros H. destruct content as [| | | | | |ms]; try discriminate. simpl in H.
  unfold media_refs. cbn [values_of bind].
  apply foldM_ok. intros media Hin acc.
  apply in_map_iff in Hin. destruct Hin as (kv & <- & Hkv).
  unfold values in H. rewrite forallb_forall in H. specialize (H _ Hkv).
  destruct (snd kv) as [| | | | | |md]; try discriminate. simpl in H.
  cbn [get_or bind].
  destruct (opt_cases _ _ _ H) as [->|(sch & -> & Hsch)]; [simpl; eauto|].
  destruct sch; try discriminate. simpl. eauto.
Qed.

Lemma optional_content_ok (d : list (string * json)) (refs : list json) :
  opt d "content" wf_indexed_content = true ->
  exists refs',
    (content <- get_or (JObj d) "content" (JObj []) ;; media_refs content refs)
    = Ok refs'.
Proof.
  intros H. cbn [get_or bind].
  destruct (opt_cases _ _ _ H) as [->|(content & -> & Hc)].
  - now apply media_refs_ok.
  - now apply media_refs_ok.
Qed.

Lemma extract_schema_refs_ok (op : json) :
  wf_indexed_operation op = true -> exists refs, extract_schema_refs op = Ok refs.
Proof.
  intros H. destruct op as [| | | | | |d]; try discriminate. simpl in H.
  apply andb_true_iff in H. destruct H as [Hrb Hresp].
  unfold extract_schema_refs. cbn [get_or bind].
  assert (Hbody : exists refs,
             (content <- get_or (match lookup d "requestBody" with
                                 | Some x => x | None => JObj [] end)
                                "content" (JObj []) ;;
              media_refs content []) = Ok refs).
  { destruct (opt_cases _ _ _ Hrb) as [->|(rb & -> & Hc)].
    - now apply optional_content_ok.
    - destruct rb as [| | | | | |rbd]; try discriminate.
      now apply optional_content_ok. }
  destruct Hbody as [refs Hbody].
  apply bind_ok in Hbody. destruct Hbody as (content & Hcontent & Hmedia).
  rewrite Hcontent. cbn [bind]. rewrite Hmedia. cbn [bind].
  assert (Hvalues : exists resps,
             values_of (match lookup d "responses" with
                        | Some x => x | None => JObj [] end) = Ok resps
             /\ Forall (fun resp => dict_of (fun r => opt r "content" wf_indexed_content)
                                            resp = true) resps).
  { destruct (opt_cases _ _ _ Hresp) as [->|(rs & -> & Hc)].
    - exists []. split; [reflexivity|constructor].
    - destruct rs as [| | | | | |rsd]; try discriminate. simpl in Hc.
      exists (map snd rsd). split; [reflexivity|].
      apply Forall_forall. intros resp Hin.
      apply in_map_iff in Hin. destruct Hin as (kv & <- & Hkv).
      unfold values in Hc. rewrite forallb_forall in Hc. now apply Hc. }
  destruct Hvalues as (resps & -> & Hall). cbn [bind].
  apply foldM_ok. intros resp Hin acc. rewrite Forall_forall in Hall.
  specialize (Hall _ Hin). destruct resp as [| | | | | |rd]; try discriminate.
  now apply optional_content_ok.
Qed.

Lemma index_entry_ok (data : json) :
  wf_indexed_operation data = true ->
  exists summary operationId refs,
    index_entry data = Ok (JObj [("summary", summary);
                                 ("operationId", operationId);
                                 ("schema_refs", JArr refs)]).
Proof.
  intros H. destruct (extract_schema_refs_ok _ H) as [refs Hrefs].
  destruct data as [| | | | | |d]; try discriminate.
  unfold index_entry, get. cbn [get_or bind]. rewrite Hrefs. cbn [bind]. eauto.
Qed.

(** A loop that only adds entries of the built shape, each element [x]
    under the keys [covers x]. *)
Lemma foldM_index {A : Type} (covers : A -> string * string -> Prop)
  (body : index -> A -> result index) (l : list A) :
  (forall x s, In x l ->
     exists s', body s x = Ok s'
       /\ (forall k, stored s k -> stored s' k)
       /\ (forall k, covers x k -> stored s' k)
       /\ (forall k, In k (map fst s') -> In k (map fst s) \/ covers x k)) ->
  forall s,
    exists out, foldM body l s = Ok out
      /\ (forall k, stored s k -> stored out k)
      /\ (forall x k, In x l -> covers x k -> stored out k)
      /\ (forall k, In k (map fst out) ->
                    In k (map fst s) \/ exists x, In x l /\ covers x k).
Proof.
  induction l as [|x l IH]; intros Hbody s; simpl.
  - exists s. repeat split; auto. intros x k [].
  - destruct (Hbody x s (or_introl eq_refl)) as (s' & -> & Hkeep & Hcover & Hkeys).
    cbn [bind].
    destruct (IH (fun y t Hy => Hbody y t (or_intror Hy)) s')
      as (out & -> & Hkeep' & Hcover' & Hkeys').
    exists out. split; [reflexivity|]. split; [auto|]. split.
    + intros y k [<-|Hy] Hk; [apply Hkeep'; now apply Hcover|now apply (Hcover' y)].
    + intros k Hk. destruct (Hkeys' k Hk) as [Hs'|(y & Hy & Hc)].
      * destruct (Hkeys k Hs') as [Hs|Hc]; [now left|right; exists x; auto].
      * right. exists y. auto.
Qed.

Lemma indexable_inv (spec : json) :
  indexable_spec spec = true ->
  exists top, spec = JObj top
    /\ lookup top "paths" = Some (JObj (paths_of spec))
    /\ forall path methods,
         In (path, methods) (paths_of spec) ->
         exists ops, methods = JObj ops
                     /\ forall method data, In (method, data) ops ->
                                            wf_indexed_operation data = true.
Proof.
  destruct spec as [| | | | | |top]; try discriminate. unfold indexable_spec, paths_of.
  destruct (lookup top "paths") as [[| | | | | |pis]|] eqn:Hl; try discriminate.
  intros H. exists top. split; [reflexivity|]. split; [exact Hl|].
  intros path methods Hin. unfold values in H. rewrite forallb_forall in H.
  specialize (H _ Hin). simpl in H.
  destruct methods as [| | | | | |ops]; try discriminate. exists ops.
  split; [reflexivity|]. intros method data Hmd.
  simpl in H. unfold values in H. rewrite forallb_forall in H. now apply (H _ Hmd).
Qed.

(** The index of a document the import accepts: an entry under
    [(path, method.lower())] for every method under every path, and no
    other key. *)
Lemma build_index_covers (spec : json) :
  indexable_spec spec = true ->
  exists idx,
    build_index spec = Ok idx
    /\ (forall path ops method data,
          In (path, JObj ops) (paths_of spec) -> In (method, data) ops ->
          stored idx (path, lower method))
    /\ (forall k, In k (map fst idx) ->
          exists path ops method data,
            In (path, JObj ops) (paths_of spec) /\ In (method, data) ops
            /\ k = (path, lower method)).
Proof.
  intros H. destruct (indexable_inv _ H) as (top & -> & Hpaths & Hitems).
  unfold build_index. cbn [get_or bind]. rewrite Hpaths. cbn [items bind].
  match goal with |- context [foldM ?body (paths_of (JObj top)) []] =>
    destruct (foldM_index
                (fun (pm : string * json) k =>
                   exists method data,
                     In (method, data) (items_if_dict (snd pm))
                     /\ k = (fst pm, lower method))
                body (paths_of (JObj top))) with (s := @nil ((string * string) * json))
      as (idx & Hidx & _ & Hcover & Hkeys)
  end.
  - intros [path methods] s Hin.
    destruct (Hitems _ _ Hin) as (ops & -> & Hops). cbn [items bind fst snd items_if_dict].
    match goal with |- context [foldM ?body ops s] =>
      destruct (foldM_index
                  (fun (md : string * json) k => k = (path, lower (fst md)))
                  body ops) with (s := s)
        as (out & Hout & Hkeep & Hcover & Hkeys)
    end.
    + intros [method data] t Hmd.
      destruct (index_entry_ok _ (Hops _ _ Hmd)) as (sm & oid & refs & ->).
      cbn [bind fst]. eexists. split; [reflexivity|]. split; [|split].
      * intros k Hk. apply stored_set. now left.
      * intros k ->. apply stored_set. now right.
      * intros k Hk. apply index_set_keys in Hk. destruct Hk; [now right|now left].
    + exists out. split; [assumption|]. split; [assumption|]. split.
      * intros k (method & data & Hmd & ->). now apply (Hcover (method, data)).
      * intros k Hk. destruct (Hkeys k Hk) as [Hs|([method data] & Hmd & ->)];
          [now left|right; eauto].
  - exists idx. split; [assumption|]. split.
    + intros path ops method data Hp Hmd.
      apply (Hcover (path, JObj ops)); [assumption|]. simpl. eauto.
    + intros k Hk. destruct (Hkeys k Hk) as [[]|([path methods] & Hp & method & data & Hmd & ->)].
      destruct (Hitems _ _ Hp) as (ops & -> & _). simpl in Hmd.
      exists path, ops, method, data. auto.
Qed.

Lemma import_started (spec : json) (idx : index) :
  import_main spec = Started idx -> build_index spec = Ok idx.
Proof.
  unfold import_main. destruct spec; try discriminate.
  destruct (lookup _ "paths"); [|discriminate].
  destruct (keys _); [|discriminate].
  destruct (build_index _); [|discriminate]. now intros [= ->].
Qed.

End Serving.

(** X23. On a document whose [paths] is present and holds operations
    of the shape [extract_schema_refs] walks through, importing
    [app/main.py] succeeds, and the index it builds has an entry under
    [(path, method.lower())] for every method under every path and no
    key besides these. *)
Theorem import_builds_index (spec : json) :
  indexable_spec spec = true ->
  exists idx,
    import_main spec = Started idx
    /\ (forall path ops method data,
          In (path, JObj ops) (paths_of spec) -> In (method, data) ops ->
          stored idx (path, lower method))
    /\ (forall k, In k (map fst idx) ->
          exists path ops method data,
            In (path, JObj ops) (paths_of spec) /\ In (method, data) ops
            /\ k = (path, lower method)).
Proof.
  intros H. destruct (build_index_covers spec H) as (idx & Hidx & Hcover & Hkeys).
  exists idx. split; [|split; assumption].
  destruct (indexable_inv _ H) as (top & -> & Hpaths & _).
  unfold import_main. rewrite Hpaths. cbn [keys]. now rewrite Hidx.
Qed.

Lemma import_builds_index_witness :
  indexable_spec orders_spec = true
  /\ exists idx,
       import_main orders_spec = Started idx
       /\ (forall path ops method data,
             In (path, JObj ops) (paths_of orders_spec) -> In (method, data) ops ->
             stored idx (path, lower method))
       /\ (forall k, In k (map fst idx) ->
             exists path ops method data,
               In (path, JObj ops) (paths_of orders_spec) /\ In (method, data) ops
               /\ k = (path, lower method)).
Proof.
  split; [reflexivity|]. apply (import_builds_index orders_spec). reflexivity.
Defined.

(** X24. When a request to [POST /choose] brings a question and no
    candidates, on a well-formed document the import accepted, the
    handler returns for every answer of the model, and it never answers
    "Chosen endpoint not found in spec": the body is "No matching
    endpoint found" or names an operation of the document, with its
    route and its method lower-cased. *)
Theorem choose_endpoint_finds_chosen (spec : json) (idx : index) (q : string)
  (candidates : option (list Candidate)) (text : string) :
  well_formed_spec spec = true ->
  indexable_spec spec = true ->
  import_main spec = Started idx ->
  is_empty q = false ->
  candidates = None \/ candidates = Some [] ->
  exists body,
    choose_endpoint spec idx q candidates text = Returned (Body body)
    /\ (body = no_match
        \/ exists route method info summary operationId refs,
             In (route, method, info) (operations spec)
             /\ body = JObj [("route", JStr route);
                             ("method", JStr (lower method));
                             ("summary", summary);
                             ("operationId", operationId);
                             ("schema_refs", JArr refs)]).
Proof.
  intros Hwf Hidx Himport Hq Hcands.
  apply import_started in Himport.
  destruct (build_index_covers spec Hidx) as (idx' & Hbuild & Hcover & _).
  rewrite Himport in Hbuild. injection Hbuild as <-.
  unfold choose_endpoint. rewrite Hq.
  assert (Hnone : match candidates with
                  | Some (c :: cs) => False
                  | _ => True
                  end) by (destruct Hcands as [->| ->]; exact I).
  destruct candidates as [[|c0 cs0]|]; try contradiction;
    rewrite (find_candidates_ranking false) by assumption;
    set (cands := slice_to _ 10);
    (assert (Hfrom : forall c, In c cands ->
               exists info, In (route c, method c, info) (operations spec));
     [intros c Hc; apply slice_to_incl in Hc;
      apply (Permutation_in _ (sort_perm _)) in Hc;
      apply in_map_iff in Hc; destruct Hc as ([[r m] info] & <- & Hop);
      exists info; exact Hop|]);
    (destruct (is_nil cands) eqn:Hnil;
     [unfold choose; rewrite Hnil; eexists; split; [reflexivity|now left]|]);
    rewrite choose_is_try by assumption;
    destruct (choose_try_returns cands text Hnil) as [ch Hch]; rewrite Hch;
    (destruct ch as [|r m]; [eexists; split; [reflexivity|now left]|]);
    destruct (choose_try_in_candidates _ _ _ _ Hch) as (c & Hc & Hr & Hm);
    destruct (Hfrom c Hc) as [info Hop];
    destruct (operation_inv _ _ _ _ Hwf Hop) as (ops & Hentry & Hmi & _);
    destruct (Hcover _ _ _ _ Hentry Hmi) as (sm & oid & refs & Hget);
    rewrite Hr, Hm in Hget; rewrite Hget;
    cbn [truthy is_nil negb]; unfold get; cbn [get_or bind lookup String.eqb Ascii.eqb Bool.eqb];
    eexists; (split; [reflexivity|]); right;
    exists (route c), (method c), info, sm, oid, refs;
    (split; [assumption|]); now rewrite Hr, Hm.
Qed.

Lemma choose_endpoint_finds_chosen_witness :
  import_main orders_spec = Started orders_index
  /\ exists body,
       choose_endpoint orders_spec orders_index "create an order" None "/orders/ POST"
       = Returned (Body body)
       /\ (body = no_match
           \/ exists route method info summary operationId refs,
                In (route, method, info) (operations orders_spec)
                /\ body = JObj [("route", JStr route);
                                ("method", JStr (lower method));
                                ("summary", summary);
                                ("operationId", operationId);
                                ("schema_refs", JArr refs)]).
Proof.
  split; [reflexivity|].
  apply (choose_endpoint_finds_chosen orders_spec orders_index "create an order" None
           "/orders/ POST"); try reflexivity.
  now left.
Defined.
